(** * WhatsApp group link scraper: the request handlers of api_whatsapp.js

    A shallow embedding of [src/api/api_whatsapp.js]: the paginated link
    collector [getWhatsappGroupLinks], the category lister [getCategories]
    and the two Express handlers that call them.

    Conventions of the embedding.
    - A JavaScript string is a [string]; every [ascii] is one code unit
      below 256 (the Latin-1 range).
    - A JavaScript Number that holds an integer is a [Z]; [NaN] is [None].
    - The HTTP client (axios) is a function of the requests made so far and
      of the requested URL, so that a site may answer differently each time.
    - The HTML query engine (cheerio) is seen through what the selectors of
      the source return on a document, in document order.
    - [await], [throw] and [try]/[catch] live in a small monad over the
      observable world (requests made, console lines); the [while] loop of
      the collector takes fuel, one unit per evaluation of its condition. *)

From Stdlib Require Import List String Ascii ZArith Lia Bool Arith DecimalString.
From Stdlib Require Import DecimalNat.
Import ListNotations.

Local Open Scope string_scope.
Local Open Scope list_scope.

(* ================================================================== *)
(** ** JavaScript strings and numbers *)

Module Js.

(** [s.startsWith(p)] *)
Definition startsWith (s p : string) : bool := String.prefix p s.

(** [s.includes(sub)]: [sub] occurs at some position of [s]. *)
Fixpoint includes (s sub : string) : bool :=
  String.prefix sub s ||
  match s with
  | EmptyString => false
  | String _ s' => includes s' sub
  end.

(** [s.replace(/\/$/, "")]: without the [m] flag [$] is the end of input,
    so exactly one trailing slash is removed, when there is one. *)
Fixpoint replace_trailing_slash (s : string) : string :=
  match s with
  | EmptyString => EmptyString
  | String c EmptyString => if Ascii.eqb c "/" then EmptyString else s
  | String c s' => String c (replace_trailing_slash s')
  end.

(** [s.replace(/^\//, "")]: one leading slash is removed, when there is one. *)
Definition replace_leading_slash (s : string) : string :=
  match s with
  | String c s' => if Ascii.eqb c "/" then s' else s
  | EmptyString => EmptyString
  end.

(** White space of the language among the code units below 256: TAB, LF, VT,
    FF, CR, SP and NBSP. *)
Definition is_white (c : ascii) : bool :=
  let n := nat_of_ascii c in
  (((9 <=? n) && (n <=? 13)) || (n =? 32) || (n =? 160))%nat.

Fixpoint trimStart (s : string) : string :=
  match s with
  | String c s' => if is_white c then trimStart s' else s
  | EmptyString => EmptyString
  end.

(** [trimEnd] keeps a character when it is not white or when something
    that is kept follows it. *)
Fixpoint trimEnd (s : string) : string :=
  match s with
  | EmptyString => EmptyString
  | String c s' =>
      match trimEnd s' with
      | EmptyString => if is_white c then EmptyString else String c EmptyString
      | t => String c t
      end
  end.

(** [s.trim()] *)
Definition trim (s : string) : string := trimEnd (trimStart s).

(** Truthiness of a string: only the empty string is falsy. *)
Definition truthy (s : string) : bool := negb (String.eqb s "").

(** [v || d] for a value [v] that is a string or [undefined]. *)
Definition or_default (v : option string) (d : string) : string :=
  match v with
  | Some s => if truthy s then s else d
  | None => d
  end.

(** [ToString] of a value that is a string or [undefined]. *)
Definition toString (v : option string) : string :=
  match v with
  | Some s => s
  | None => "undefined"
  end.

(** The decimal form of a non-negative integer inside a template literal. *)
Definition of_nat (n : nat) : string := NilEmpty.string_of_uint (Nat.to_uint n).

(** Value of a code unit as a digit of the given radix. *)
Definition digit_value (radix : Z) (c : ascii) : option Z :=
  let n := Z.of_nat (nat_of_ascii c) in
  let v :=
    (if (48 <=? n) && (n <=? 57) then Some (n - 48)
     else if (97 <=? n) && (n <=? 122) then Some (n - 87)
     else if (65 <=? n) && (n <=? 90) then Some (n - 55)
     else None)%Z in
  match v with
  | Some d => if (d <? radix)%Z then Some d else None
  | None => None
  end.

(** The longest prefix of digits, read in the given radix; [acc] is the
    value read so far, [None] while no digit has been read. *)
Fixpoint parse_digits (radix : Z) (s : string) (acc : option Z) : option Z :=
  match s with
  | EmptyString => acc
  | String c s' =>
      match digit_value radix c with
      | Some d =>
          parse_digits radix s'
            (Some (radix * match acc with Some a => a | None => 0 end + d)%Z)
      | None => acc
      end
  end.

(** [parseInt(s)] with no radix argument: leading white space is skipped, a
    sign is read, a [0x] or [0X] prefix selects radix 16, and the longest
    prefix of digits gives the value; [None] is [NaN]. The integer is exact
    here; the Number the runtime builds has the same sign and is zero in
    the same cases. *)
Definition parseInt (input : string) : option Z :=
  let s := trimStart input in
  let '(sign, s1) :=
    match s with
    | String c rest =>
        if Ascii.eqb c "-" then ((-1)%Z, rest)
        else if Ascii.eqb c "+" then (1%Z, rest)
        else (1%Z, s)
    | EmptyString => (1%Z, s)
    end in
  let '(radix, s2) :=
    match s1 with
    | String z (String x rest) =>
        if Ascii.eqb z "0" && (Ascii.eqb x "x" || Ascii.eqb x "X")
        then (16%Z, rest) else (10%Z, s1)
    | _ => (10%Z, s1)
    end in
  match parse_digits radix s2 None with
  | Some m => Some (sign * m)%Z
  | None => None
  end.

(** [n || d] for a Number [n]: [NaN] and zero are falsy. *)
Definition number_or (n : option Z) (d : Z) : Z :=
  match n with
  | Some v => if (v =? 0)%Z then d else v
  | None => d
  end.

(** [a.slice(0, n)] for an integer [n]: a negative end counts from the end
    of the array. *)
Definition slice0 {A : Type} (a : list A) (n : Z) : list A :=
  if (n <? 0)%Z
  then firstn (Z.to_nat (Z.max (Z.of_nat (List.length a) + n) 0)) a
  else firstn (Z.to_nat n) a.

End Js.

(* ================================================================== *)
(** ** The collaborators: HTTP client and HTML query engine *)

(** A thrown value; the source reads only its [message]. *)
Record JsError := { message : string }.

(** A group card of a listing page, [div.card.group] or [div.card.group.vip]:
    the [href] values of the [a[href]] elements inside its [div.card-body],
    in document order. *)
Record Card := { card_body_hrefs : list string }.

(** An [a.category] element of the navigation region: the text of its
    [.category-name] descendants and its own [href] attribute. *)
Record CategoryAnchor :=
  { category_name_text : string; anchor_href : option string }.

(** What the selectors of the source see in a parsed document. *)
Record Document :=
  { groupCards : list Card;
    (** [data-url] values of the elements matched by
        [.card-body a.btn.btn-success.btn-block[data-url]] *)
    whatsappLinkTags : list string;
    (** elements matched by [.row-categories .col-category a.category] *)
    categoryAnchors : list CategoryAnchor }.

(** [response.data]: markup the query engine loads, or a value on which
    [cheerio.load] throws. *)
Inductive ResponseData :=
| Html (d : Document)
| NotHtml (e : JsError).

(** How the promise of [axios.get] settles. *)
Inductive settled :=
| Fulfilled (data : ResponseData)
| Rejected (e : JsError).

(** The site: the answer to a GET may depend on every request made before. *)
Definition Net := list string -> string -> settled.

(* ================================================================== *)
(** ** Effects: requests, console, exceptions *)

Record World := { requests : list string; console : list string }.

Definition start : World := {| requests := []; console := [] |}.

(** The world once one more GET has gone out. *)
Definition sent (url : string) (w : World) : World :=
  {| requests := requests w ++ [url]; console := console w |}.

Inductive completion (A : Type) :=
| Normal (a : A)
| Throw (e : JsError).

Arguments Normal {A} a.
Arguments Throw {A} e.

Definition Eff (A : Type) := World -> completion A * World.

Definition ret {A} (a : A) : Eff A := fun w => (Normal a, w).

Definition throw {A} (e : JsError) : Eff A := fun w => (Throw e, w).

Definition bind {A B} (m : Eff A) (k : A -> Eff B) : Eff B := fun w =>
  match m w with
  | (Normal a, w') => k a w'
  | (Throw e, w') => (Throw e, w')
  end.

(** [try { m } catch (err) { handler err }] *)
Definition try_catch {A} (m : Eff A) (handler : JsError -> Eff A) : Eff A :=
  fun w =>
    match m w with
    | (Normal a, w') => (Normal a, w')
    | (Throw e, w') => handler e w'
    end.

Declare Scope eff_scope.
Delimit Scope eff_scope with eff.
Notation "x <- m ;; k" := (bind m (fun x => k))
  (at level 100, m at next level, right associativity) : eff_scope.
Local Open Scope eff_scope.

(* ================================================================== *)
(** ** The scraper *)

Inductive loop_exit := Break | NextIteration.

Definition marker : string := "chat.whatsapp.com".

Section Scraper.

Variable net : Net.

(** [await axios.get(url)]: the request is recorded, then the promise
    settles. *)
Definition axios_get (url : string) : Eff ResponseData := fun w =>
  match net (requests w) url with
  | Fulfilled data => (Normal data, sent url w)
  | Rejected e => (Throw e, sent url w)
  end.

(** [cheerio.load(data)] *)
Definition cheerio_load (data : ResponseData) : Eff Document :=
  match data with
  | Html d => ret d
  | NotHtml e => throw e
  end.

(** [console.error(prefix, text)] *)
Definition console_error (prefix text : string) : Eff unit := fun w =>
  (Normal tt,
   {| requests := requests w;
      console := console w ++ [(prefix ++ " " ++ text)%string] |}).

(** Lines 39-41: the URL of a listing page. *)
Definition currentUrl (baseUrl : string) (pageCounter : nat) : string :=
  if Js.includes baseUrl "/page/"
  then (baseUrl ++ "/page/" ++ Js.of_nat pageCounter)%string
  else (baseUrl ++ "?page=" ++ Js.of_nat pageCounter)%string.

(** Line 57: [cardBody.find("a[href]").first()], as the [href] it carries. *)
Definition linkTag (card : Card) : option string := hd_error (card_body_hrefs card).

(** Lines 60-63: the URL of the detail page of a card. *)
Definition detailPageUrl (baseUrl href : string) : string :=
  if negb (Js.startsWith href "http")
  then (Js.replace_trailing_slash baseUrl ++ "/"
        ++ Js.replace_leading_slash href)%string
  else href.

(** Lines 65-79: the detail page of one card; [allGroupLinks.push] is the
    last action of the [try] block, so the array the [catch] sees is the one
    the block started with. *)
Definition visit_detail (url : string) (allGroupLinks : list string)
  : Eff (list string) :=
  try_catch
    (detailResponse <- axios_get url ;;
     doc <- cheerio_load detailResponse ;;
     match whatsappLinkTags doc with
     | whatsappGroupLink :: _ =>
         if Js.includes whatsappGroupLink marker
         then ret (allGroupLinks ++ [whatsappGroupLink])
         else ret allGroupLinks
     | [] => ret allGroupLinks
     end)
    (fun _ => ret allGroupLinks).

(** Lines 50-80: the [for] loop, over the cards from index [i] on. *)
Fixpoint for_cards (baseUrl : string) (numLinksToGet : Z)
    (cards : list Card) (allGroupLinks : list string) : Eff (list string) :=
  match cards with
  | [] => ret allGroupLinks
  | card :: rest =>
      if (Z.of_nat (List.length allGroupLinks) <? numLinksToGet)%Z then
        match linkTag card with
        | None => for_cards baseUrl numLinksToGet rest allGroupLinks
        | Some href =>
            links <- visit_detail (detailPageUrl baseUrl href) allGroupLinks ;;
            for_cards baseUrl numLinksToGet rest links
        end
      else ret allGroupLinks
  end.

(** Lines 39-85: the body of the [while] loop. Nothing in the [for] loop
    throws outside its inner [try], so the outer [catch] is reached only
    before the first card, with the array as the iteration found it. *)
Definition page_body (baseUrl : string) (numLinksToGet : Z)
    (allGroupLinks : list string) (pageCounter : nat)
  : Eff (loop_exit * list string) :=
  try_catch
    (response <- axios_get (currentUrl baseUrl pageCounter) ;;
     doc <- cheerio_load response ;;
     if (List.length (groupCards doc) =? 0)%nat then ret (Break, allGroupLinks)
     else
       links <- for_cards baseUrl numLinksToGet (groupCards doc) allGroupLinks ;;
       ret (NextIteration, links))
    (fun _ => ret (Break, allGroupLinks)).

(** Lines 38-86: the [while] loop; [None] when the fuel runs out. *)
Fixpoint while_pages (fuel : nat) (baseUrl : string) (numLinksToGet : Z)
    (allGroupLinks : list string) (pageCounter : nat) (w : World)
  : option (completion (list string) * World) :=
  match fuel with
  | O => None
  | S fuel' =>
      if (Z.of_nat (List.length allGroupLinks) <? numLinksToGet)%Z then
        match page_body baseUrl numLinksToGet allGroupLinks pageCounter w with
        | (Normal (Break, links), w') => Some (Normal links, w')
        | (Normal (NextIteration, links), w') =>
            while_pages fuel' baseUrl numLinksToGet links (S pageCounter) w'
        | (Throw e, w') => Some (Throw e, w')
        end
      else Some (Normal allGroupLinks, w)
  end.

(** Lines 34-89. *)
Definition getWhatsappGroupLinks (fuel : nat) (baseUrl : string)
    (numLinksToGet : Z) (w : World)
  : option (completion (list string) * World) :=
  match while_pages fuel baseUrl numLinksToGet [] 1 w with
  | Some (Normal allGroupLinks, w') =>
      Some (Normal (Js.slice0 allGroupLinks numLinksToGet), w')
  | Some (Throw e, w') => Some (Throw e, w')
  | None => None
  end.

Record Category := { name : string; url : string }.

(** Lines 99-105: the callback of [.each], applied to one element. *)
Definition each_category (categories : list Category) (el : CategoryAnchor)
  : list Category :=
  let name := Js.trim (category_name_text el) in
  let url := anchor_href el in
  match url with
  | Some u =>
      if Js.truthy name && Js.truthy u
      then categories ++ [{| name := name; url := u |}]
      else categories
  | None => categories
  end.

(** Lines 92-112. *)
Definition getCategories (baseUrl : string) : Eff (list Category) :=
  try_catch
    (response <- axios_get baseUrl ;;
     doc <- cheerio_load response ;;
     ret (fold_left each_category (categoryAnchors doc) []))
    (fun error =>
       _ <- console_error "Erro ao buscar categorias:" (message error) ;;
       ret []).

(* ------------------------------------------------------------------ *)
(** *** The Express handlers *)

Record Request := { base_url : option string; num_links : option string }.

Inductive Json :=
| JError (error : string)
| JErrorDetail (error detail : string)
| JLinks (links : list string)
| JCategories (categories : list Category).

Record Response := { status : Z; body : Json }.

Definition a_circumflex : ascii := ascii_of_nat 226.
Definition a_acute : ascii := ascii_of_nat 225.

(** The message of line 153, with its two accented letters. *)
Definition invalid_parameters : string :=
  ("Par" ++ String a_circumflex ("metros inv" ++ String a_acute "lidos."))%string.

Definition no_links_found : string := "Nenhum link encontrado.".

Definition default_base_url : string := "https://gruposwhats.app".

(** Line 149: [req.query.base_url || "https://gruposwhats.app"] *)
Definition query_base_url (req : Request) : string :=
  Js.or_default (base_url req) default_base_url.

(** Line 150: [parseInt(req.query.num_links) || 5] *)
Definition query_num_links (req : Request) : Z :=
  Js.number_or (Js.parseInt (Js.toString (num_links req))) 5.

(** Lines 156-164: what the handler answers once the collector has
    settled; it does not answer while the collector runs. *)
Definition respond_links (settled : option (completion (list string) * World))
  : option (Response * World) :=
  match settled with
  | Some (Normal links, w') =>
      if (List.length links =? 0)%nat
      then Some ({| status := 404; body := JError no_links_found |}, w')
      else Some ({| status := 200; body := JLinks links |}, w')
  | Some (Throw err, w') =>
      Some ({| status := 500;
               body := JErrorDetail "Erro interno no servidor." (message err) |},
            w')
  | None => None
  end.

(** Lines 148-165. *)
Definition get_whatsapp_links (fuel : nat) (req : Request) (w : World)
  : option (Response * World) :=
  let baseUrl := query_base_url req in
  let numLinks := query_num_links req in
  if negb (Js.truthy baseUrl) || (numLinks <=? 0)%Z then
    Some ({| status := 400; body := JError invalid_parameters |}, w)
  else respond_links (getWhatsappGroupLinks fuel baseUrl numLinks w).

(** Lines 196-205. *)
Definition get_categories (req : Request) (w : World) : Response * World :=
  let baseUrl := query_base_url req in
  match getCategories baseUrl w with
  | (Normal categories, w') =>
      ({| status := 200; body := JCategories categories |}, w')
  | (Throw err, w') =>
      ({| status := 500;
          body := JErrorDetail "Erro ao buscar categorias" (message err) |}, w')
  end.

End Scraper.

(* ================================================================== *)
(** ** What the specification names *)

Section Specification.

Variable net : Net.

(** Following the specification's words, "a valid invite link": what the
    call-to-action of the detail page at [url] carries, when the page can be
    fetched and parsed and the value contains the invite-domain marker. *)
Definition invite_of_detail (url : string) (w : World) : list string :=
  match net (requests w) url with
  | Fulfilled (Html d) =>
      match whatsappLinkTags d with
      | link :: _ => if Js.includes link marker then [link] else []
      | [] => []
      end
  | _ => []
  end.

(** The invite link one card yields (none or one) and the world after its
    detail page, if it names one, has been requested. *)
Definition card_invites (baseUrl : string) (card : Card) (w : World)
  : list string * World :=
  match linkTag card with
  | None => ([], w)
  | Some href =>
      let u := detailPageUrl baseUrl href in (invite_of_detail u w, sent u w)
  end.

(** The invite links of all the cards of one listing page. *)
Fixpoint page_invites (baseUrl : string) (cards : list Card) (w : World)
  : list string * World :=
  match cards with
  | [] => ([], w)
  | card :: rest =>
      let (l1, w1) := card_invites baseUrl card w in
      let (l2, w2) := page_invites baseUrl rest w1 in
      (l1 ++ l2, w2)
  end.

(** Following the specification's words, "the valid invite links the site
    yields before pagination ends": every card of every listing page is
    visited, from page [pageCounter] on, until a listing page cannot be
    fetched or parsed or has no card. [None] when pagination has not ended
    within [fuel] pages. *)
Fixpoint site_invites (fuel : nat) (baseUrl : string) (pageCounter : nat)
    (w : World) : option (list string) :=
  match fuel with
  | O => None
  | S fuel' =>
      let w1 := sent (currentUrl baseUrl pageCounter) w in
      match net (requests w) (currentUrl baseUrl pageCounter) with
      | Fulfilled (Html d) =>
          match groupCards d with
          | [] => Some []
          | cards =>
              let (l1, w2) := page_invites baseUrl cards w1 in
              match site_invites fuel' baseUrl (S pageCounter) w2 with
              | Some l2 => Some (l1 ++ l2)
              | None => None
              end
          end
      | _ => Some []
      end
  end.

(** [available_links] of the specification. *)
Definition available_links (fuel : nat) (baseUrl : string) (w : World)
  : option nat :=
  option_map (@List.length string) (site_invites fuel baseUrl 1 w).

(** Following the specification's words, "the href already has a scheme":
    a letter, then letters, digits, [+], [-] or [.], then a colon. *)
Definition is_alpha (c : ascii) : bool :=
  let n := nat_of_ascii c in
  (((65 <=? n) && (n <=? 90)) || ((97 <=? n) && (n <=? 122)))%nat.

Definition is_scheme_char (c : ascii) : bool :=
  let n := nat_of_ascii c in
  (is_alpha c || ((48 <=? n) && (n <=? 57)) || (n =? 43) || (n =? 45)
   || (n =? 46))%nat.

Fixpoint scheme_tail (s : string) : bool :=
  match s with
  | EmptyString => false
  | String c s' =>
      if Ascii.eqb c ":" then true
      else if is_scheme_char c then scheme_tail s' else false
  end.

Definition has_scheme (href : string) : bool :=
  match href with
  | String c s' => is_alpha c && scheme_tail s'
  | EmptyString => false
  end.

(** The resolution of a card href as the specification words it: an href
    that has a scheme is used unchanged, any other is joined to the base. *)
Definition resolution_by_scheme : Prop :=
  forall baseUrl href,
    (has_scheme href = true -> detailPageUrl baseUrl href = href)
    /\ (has_scheme href = false ->
        detailPageUrl baseUrl href
        = (Js.replace_trailing_slash baseUrl ++ "/"
             ++ Js.replace_leading_slash href)%string).

(** Following the specification's words, a category anchor is listed when
    its trimmed name and its href are both non-empty. *)
Definition listed (el : CategoryAnchor) : bool :=
  negb (String.eqb (Js.trim (category_name_text el)) "") &&
  match anchor_href el with
  | Some u => negb (String.eqb u "")
  | None => false
  end.

(** The (name, url) pair of a listed anchor. *)
Definition pair_of (el : CategoryAnchor) : Category :=
  {| name := Js.trim (category_name_text el);
     url := match anchor_href el with Some u => u | None => "" end |}.

(** Following the specification's words, a site on which "every listing
    page fetch succeeds and contains at least one group card, but no card
    ever yields a data-url containing the invite-domain marker". *)
Definition barren (baseUrl : string) : Prop :=
  (forall w pageCounter, exists d,
      net (requests w) (currentUrl baseUrl pageCounter) = Fulfilled (Html d)
      /\ groupCards d <> [])
  /\ (forall w u, invite_of_detail u w = []).

(** A link carries the invite-domain marker. *)
Definition has_marker (link : string) : Prop := Js.includes link marker = true.

(** The requests of [w'] continue those of [w]. *)
Definition extends (w w' : World) : Prop :=
  exists more, requests w' = requests w ++ more.

(** A site on which every listing page that has cards yields at least one
    valid invite link. *)
Definition productive (baseUrl : string) : Prop :=
  forall w pageCounter d,
    net (requests w) (currentUrl baseUrl pageCounter) = Fulfilled (Html d) ->
    groupCards d <> [] ->
    fst (page_invites baseUrl (groupCards d) (sent (currentUrl baseUrl pageCounter) w))
    <> [].

(** Between [w] and [w'] only requests that satisfy [P] were made, and
    nothing was written to the console. *)
Definition requested (P : string -> Prop) (w w' : World) : Prop :=
  exists more,
    requests w' = requests w ++ more /\ Forall P more /\ console w' = console w.

End Specification.

(* ================================================================== *)
(** ** Concrete sites used to run the definitions *)

Module Sites.

Definition card (href : string) : Card := {| card_body_hrefs := [href] |}.

Definition listing (cards : list Card) : ResponseData :=
  Html {| groupCards := cards; whatsappLinkTags := []; categoryAnchors := [] |}.

Definition detail (data_url : string) : ResponseData :=
  Html {| groupCards := []; whatsappLinkTags := [data_url];
          categoryAnchors := [] |}.

Definition not_found : settled := Rejected {| message := "Request failed with status code 404" |}.

(** One listing page with three cards: a group with an invite link, a group
    whose call-to-action leads elsewhere, and a group on another host. *)
Definition small : Net := fun _ u =>
  if String.eqb u "https://site.test/?page=1" then
    Fulfilled (listing [card "/g/a"; card "/g/b"; card "http://other.test/x"])
  else if String.eqb u "https://site.test/g/a" then
    Fulfilled (detail "https://chat.whatsapp.com/A")
  else if String.eqb u "https://site.test/g/b" then
    Fulfilled (detail "https://t.me/B")
  else if String.eqb u "http://other.test/x" then
    Fulfilled (detail "https://chat.whatsapp.com/X")
  else not_found.

(** A site whose listing pages have no card. *)
Definition empty : Net := fun _ _ => Fulfilled (listing []).

(** A site that is down. *)
Definition down : Net := fun _ _ => not_found.

(** Every page is a listing with one card, and no page has a
    call-to-action. *)
Definition endless : Net := fun _ _ => Fulfilled (listing [card "/g/a"]).

(** A home page with three anchors: one complete, one with a blank name,
    one without href; then one more complete anchor. *)
Definition home : Net := fun _ _ =>
  Fulfilled (Html
    {| groupCards := []; whatsappLinkTags := [];
       categoryAnchors :=
         [ {| category_name_text := " Amizade "; anchor_href := Some "/c/amizade" |};
           {| category_name_text := "   "; anchor_href := Some "/c/blank" |};
           {| category_name_text := "Jogos"; anchor_href := None |};
           {| category_name_text := "Games"; anchor_href := Some "/c/games" |} ] |}).

(** Every page is at once a listing with one card and a detail page with
    an invite link. *)
Definition generous : Net := fun _ _ =>
  Fulfilled (Html {| groupCards := [card "/g/a"];
                     whatsappLinkTags := ["https://chat.whatsapp.com/A"];
                     categoryAnchors := [] |}).

(** A home page that is not markup. *)
Definition garbled : Net := fun _ _ =>
  Fulfilled (NotHtml {| message := "cheerio.load() expects a string" |}).

End Sites.

(* ================================================================== *)
(** ** The definitions at work *)

Example parseInt_examples :
  Js.parseInt "12" = Some 12%Z /\ Js.parseInt "  -3px" = Some (-3)%Z /\
  Js.parseInt "0" = Some 0%Z /\ Js.parseInt "0x1f" = Some 31%Z /\
  Js.parseInt "abc" = None /\ Js.parseInt "" = None /\
  Js.parseInt (Js.toString None) = None /\ Js.parseInt "2.9" = Some 2%Z.
Proof. repeat split; reflexivity. Qed.

Example string_examples :
  Js.replace_trailing_slash "https://site.test/" = "https://site.test" /\
  Js.replace_trailing_slash "a//" = "a/" /\
  Js.replace_leading_slash "/g/abc" = "g/abc" /\
  Js.trim "  Amizade " = "Amizade" /\
  Js.includes "https://chat.whatsapp.com/XyZ" "chat.whatsapp.com" = true /\
  Js.includes "https://t.me/XyZ" "chat.whatsapp.com" = false /\
  Js.of_nat 12 = "12".
Proof. repeat split; reflexivity. Qed.

(* ================================================================== *)
(** ** Strings *)

Section StringFacts.

Local Open Scope string_scope.

Lemma prefix_nil (s : string) : String.prefix "" s = true.
Proof. now destruct s. Qed.

Lemma prefix_app (p s : string) :
  String.prefix p s = true <-> exists t, s = p ++ t.
Proof.
  revert s; induction p as [|a p IH]; intros s.
  - rewrite prefix_nil. split; [intros _; now exists s | reflexivity].
  - destruct s as [|b s]; simpl.
    + split; [discriminate | intros [t Ht]; discriminate].
    + destruct (ascii_dec a b) as [->|Hab].
      * rewrite IH. split; intros [t Ht]; exists t; congruence.
      * split; [discriminate | intros [t Ht]; congruence].
Qed.

Lemma includes_app (a sub b : string) : Js.includes (a ++ sub ++ b) sub = true.
Proof.
  assert (P : forall t, String.prefix sub t = true -> Js.includes t sub = true).
  { intros t Ht. destruct t; cbn [Js.includes]; now rewrite Ht. }
  induction a as [|c a IH].
  - apply P, prefix_app. now exists b.
  - simpl. rewrite IH. apply orb_true_r.
Qed.

(** [includes] is the substring test. *)
Lemma includes_spec (s sub : string) :
  Js.includes s sub = true <-> exists a b, s = a ++ sub ++ b.
Proof.
  split.
  - induction s as [|c s IH]; cbn [Js.includes]; intros H.
    + rewrite orb_false_r in H. apply prefix_app in H as [t Ht].
      now exists "", t.
    + apply orb_true_iff in H as [H|H].
      * apply prefix_app in H as [t Ht]. now exists "", t.
      * destruct (IH H) as (a & b & ->). now exists (String c a), b.
  - intros (a & b & ->). apply includes_app.
Qed.

Lemma replace_trailing_slash_app (b : string) :
  Js.replace_trailing_slash (b ++ "/") = b.
Proof.
  induction b as [|c b IH]; [reflexivity|].
  simpl. destruct (b ++ "/") eqn:E.
  - destruct b; discriminate.
  - now rewrite IH.
Qed.

Lemma replace_trailing_slash_other (s : string) :
  (forall b, s <> b ++ "/") -> Js.replace_trailing_slash s = s.
Proof.
  induction s as [|c s IH]; intros H; [reflexivity|].
  simpl. destruct s as [|d s].
  - destruct (Ascii.eqb_spec c "/") as [->|_]; [|reflexivity].
    now destruct (H "").
  - f_equal. apply IH. intros b Hb. apply (H (String c b)). simpl. now rewrite Hb.
Qed.

Lemma replace_leading_slash_app (h : string) :
  Js.replace_leading_slash ("/" ++ h) = h.
Proof. reflexivity. Qed.

Lemma replace_leading_slash_other (s : string) :
  (forall h, s <> "/" ++ h) -> Js.replace_leading_slash s = s.
Proof.
  destruct s as [|c s]; intros H; [reflexivity|]. simpl.
  destruct (Ascii.eqb_spec c "/") as [->|_]; [|reflexivity].
  now destruct (H s).
Qed.

End StringFacts.

(* ================================================================== *)
(** ** The collector, card by card and page by page *)

Section CollectorFacts.

Variable net : Net.
Variable baseUrl : string.
Variable numLinksToGet : Z.


Lemma invite_of_detail_length u w :
  (List.length (invite_of_detail net u w) <= 1)%nat.
Proof.
  unfold invite_of_detail.
  destruct (net (requests w) u) as [[d|e]|e]; simpl; try lia.
  destruct (whatsappLinkTags d) as [|link tl]; simpl; try lia.
  destruct (Js.includes link marker); simpl; lia.
Qed.

Lemma invite_of_detail_marker u w : Forall has_marker (invite_of_detail net u w).
Proof.
  unfold invite_of_detail.
  destruct (net (requests w) u) as [[d|e]|e]; try constructor.
  destruct (whatsappLinkTags d) as [|link tl]; try constructor.
  destruct (Js.includes link marker) eqn:E; constructor; [exact E | constructor].
Qed.

(** One detail page: the array grows by what the page yields, and the
    [try] block never lets a failure out. *)
Lemma visit_detail_spec u allGroupLinks w :
  visit_detail net u allGroupLinks w
  = (Normal (allGroupLinks ++ invite_of_detail net u w), sent u w).
Proof.
  unfold visit_detail, try_catch, bind, axios_get, invite_of_detail.
  destruct (net (requests w) u) as [[d|e]|e]; simpl;
    rewrite ?app_nil_r; try reflexivity.
  destruct (whatsappLinkTags d) as [|link tl]; simpl;
    rewrite ?app_nil_r; try reflexivity.
  destruct (Js.includes link marker); simpl; rewrite ?app_nil_r; reflexivity.
Qed.

Lemma page_invites_cons card rest w :
  page_invites net baseUrl (card :: rest) w
  = (fst (card_invites net baseUrl card w)
       ++ fst (page_invites net baseUrl rest (snd (card_invites net baseUrl card w))),
     snd (page_invites net baseUrl rest (snd (card_invites net baseUrl card w)))).
Proof.
  simpl. destruct (card_invites net baseUrl card w) as [l1 w1]; simpl.
  now destruct (page_invites net baseUrl rest w1).
Qed.

Lemma card_invites_length card w :
  (List.length (fst (card_invites net baseUrl card w)) <= 1)%nat.
Proof.
  unfold card_invites. destruct (linkTag card); simpl; [|lia].
  apply invite_of_detail_length.
Qed.

Lemma page_invites_marker cards :
  forall w, Forall has_marker (fst (page_invites net baseUrl cards w)).
Proof.
  induction cards as [|card rest IH]; intros w; [constructor|].
  rewrite page_invites_cons; simpl. apply Forall_app; split; [|apply IH].
  unfold card_invites. destruct (linkTag card); simpl; [|constructor].
  apply invite_of_detail_marker.
Qed.

Lemma firstn_full {A} (l1 l2 : list A) :
  firstn (List.length l1) (l1 ++ l2) = l1.
Proof.
  rewrite firstn_app, firstn_all, Nat.sub_diag. simpl. apply app_nil_r.
Qed.

Lemma Forall_firstn {A} (P : A -> Prop) n (l : list A) :
  Forall P l -> Forall P (firstn n l).
Proof.
  intros H. rewrite <- (firstn_skipn n l) in H. now apply Forall_app in H.
Qed.

(** The [for] loop against the cards' yield: the array becomes the first
    [numLinksToGet] of what it held and what the cards yield; while the
    target is not reached every card has been visited. *)
Lemma for_cards_spec cards :
  forall allGroupLinks w,
    (Z.of_nat (List.length allGroupLinks) <= numLinksToGet)%Z ->
    exists w',
      for_cards net baseUrl numLinksToGet cards allGroupLinks w
      = (Normal (firstn (Z.to_nat numLinksToGet)
                   (allGroupLinks ++ fst (page_invites net baseUrl cards w))),
         w')
      /\ ((Z.of_nat (List.length
             (allGroupLinks ++ fst (page_invites net baseUrl cards w)))
           < numLinksToGet)%Z ->
          w' = snd (page_invites net baseUrl cards w)).
Proof.
  induction cards as [|card rest IH]; intros acc w Hle.
  - exists w. simpl. rewrite app_nil_r. split; [|reflexivity].
    unfold ret. now rewrite firstn_all2 by lia.
  - rewrite page_invites_cons. cbn [for_cards fst snd].
    destruct (Z.ltb_spec (Z.of_nat (List.length acc)) numLinksToGet) as [Hlt|Hge].
    + pose proof (card_invites_length card w) as Hone.
      unfold card_invites in *. destruct (linkTag card) as [href|]; cbn [fst snd] in *.
      * unfold bind. rewrite visit_detail_spec.
        set (u := detailPageUrl baseUrl href) in *.
        destruct (IH (acc ++ invite_of_detail net u w) (sent u w)) as (w' & E & Hw).
        { rewrite length_app. lia. }
        exists w'. rewrite E, <- app_assoc. split; [reflexivity|].
        intros H. apply Hw. now rewrite <- app_assoc.
      * destruct (IH acc w Hle) as (w' & E & Hw). exists w'. now rewrite E.
    + exists w. assert (Z.to_nat numLinksToGet = List.length acc) as -> by lia.
      rewrite firstn_full. split; [reflexivity|].
      rewrite length_app. lia.
Qed.

(** The [for] loop always completes normally, whatever the array holds. *)
Lemma for_cards_completes cards :
  forall allGroupLinks w,
    exists links w',
      for_cards net baseUrl numLinksToGet cards allGroupLinks w = (Normal links, w').
Proof.
  induction cards as [|card rest IH]; intros acc w; cbn [for_cards].
  - now exists acc, w.
  - destruct (Z.of_nat (List.length acc) <? numLinksToGet)%Z; [|now exists acc, w].
    destruct (linkTag card) as [href|]; [|apply IH].
    unfold bind. rewrite visit_detail_spec. apply IH.
Qed.

(** The body of the [while] loop, by what the listing page turns out to be. *)
Lemma page_body_down allGroupLinks pageCounter w :
  (forall d, net (requests w) (currentUrl baseUrl pageCounter) = Fulfilled (Html d) ->
             groupCards d = []) ->
  page_body net baseUrl numLinksToGet allGroupLinks pageCounter w
  = (Normal (Break, allGroupLinks), sent (currentUrl baseUrl pageCounter) w).
Proof.
  intros H. unfold page_body, try_catch, bind, axios_get.
  destruct (net (requests w) (currentUrl baseUrl pageCounter)) as [[d|e]|e];
    simpl; try reflexivity.
  now rewrite (H d eq_refl).
Qed.

Lemma page_body_cards allGroupLinks pageCounter w d :
  net (requests w) (currentUrl baseUrl pageCounter) = Fulfilled (Html d) ->
  groupCards d <> [] ->
  page_body net baseUrl numLinksToGet allGroupLinks pageCounter w
  = match for_cards net baseUrl numLinksToGet (groupCards d) allGroupLinks
            (sent (currentUrl baseUrl pageCounter) w) with
    | (Normal links, w') => (Normal (NextIteration, links), w')
    | (Throw e, w') => (Normal (Break, allGroupLinks), w')
    end.
Proof.
  intros E Hne. unfold page_body, try_catch, bind, axios_get. rewrite E. simpl.
  destruct (groupCards d) as [|c cs] eqn:Ec; [congruence|].
  cbn [List.length Nat.eqb]. cbv beta iota.
  now destruct (for_cards net baseUrl numLinksToGet (c :: cs) allGroupLinks
                  (sent (currentUrl baseUrl pageCounter) w)) as [[links|e] w'].
Qed.

End CollectorFacts.

(* ================================================================== *)
(** ** The pagination loop *)

Section PaginationFacts.

Variable net : Net.
Variable baseUrl : string.
Variable numLinksToGet : Z.


(** Either the listing page has cards, or pagination ends on it. *)
Lemma listing_cases pageCounter w :
  (exists d, net (requests w) (currentUrl baseUrl pageCounter) = Fulfilled (Html d)
             /\ groupCards d <> [])
  \/ (forall d, net (requests w) (currentUrl baseUrl pageCounter) = Fulfilled (Html d)
                -> groupCards d = []).
Proof.
  destruct (net (requests w) (currentUrl baseUrl pageCounter)) as [[d|e]|e];
    try (right; intros; discriminate).
  destruct (groupCards d) as [|c cs] eqn:E.
  - right. intros d' [= <-]. exact E.
  - left. exists d. split; [reflexivity|]. now rewrite E.
Qed.

Lemma while_pages_S fuel allGroupLinks pageCounter w :
  while_pages net (S fuel) baseUrl numLinksToGet allGroupLinks pageCounter w
  = if (Z.of_nat (List.length allGroupLinks) <? numLinksToGet)%Z then
      match page_body net baseUrl numLinksToGet allGroupLinks pageCounter w with
      | (Normal (Break, links), w') => Some (Normal links, w')
      | (Normal (NextIteration, links), w') =>
          while_pages net fuel baseUrl numLinksToGet links (S pageCounter) w'
      | (Throw e, w') => Some (Throw e, w')
      end
    else Some (Normal allGroupLinks, w).
Proof. reflexivity. Qed.

(** The target is reached: the loop is left at once. *)
Lemma while_pages_done fuel allGroupLinks pageCounter w :
  (numLinksToGet <= Z.of_nat (List.length allGroupLinks))%Z ->
  while_pages net (S fuel) baseUrl numLinksToGet allGroupLinks pageCounter w
  = Some (Normal allGroupLinks, w).
Proof.
  intros H. rewrite while_pages_S.
  now destruct (Z.ltb_spec (Z.of_nat (List.length allGroupLinks)) numLinksToGet); [lia|].
Qed.

(** Pagination ends on this page: the loop is left with the array as it is. *)
Lemma while_pages_end fuel allGroupLinks pageCounter w :
  (Z.of_nat (List.length allGroupLinks) < numLinksToGet)%Z ->
  (forall d, net (requests w) (currentUrl baseUrl pageCounter) = Fulfilled (Html d)
             -> groupCards d = []) ->
  while_pages net (S fuel) baseUrl numLinksToGet allGroupLinks pageCounter w
  = Some (Normal allGroupLinks, sent (currentUrl baseUrl pageCounter) w).
Proof.
  intros Hlt H. rewrite while_pages_S, (page_body_down net baseUrl numLinksToGet _ _ _ H).
  now destruct (Z.ltb_spec (Z.of_nat (List.length allGroupLinks)) numLinksToGet); [|lia].
Qed.

(** The page has cards: the loop goes on with the next page. *)
Lemma while_pages_next fuel allGroupLinks pageCounter w d :
  (Z.of_nat (List.length allGroupLinks) < numLinksToGet)%Z ->
  net (requests w) (currentUrl baseUrl pageCounter) = Fulfilled (Html d) ->
  groupCards d <> [] ->
  let visited :=
    page_invites net baseUrl (groupCards d) (sent (currentUrl baseUrl pageCounter) w) in
  exists w',
    while_pages net (S fuel) baseUrl numLinksToGet allGroupLinks pageCounter w
    = while_pages net fuel baseUrl numLinksToGet
        (firstn (Z.to_nat numLinksToGet) (allGroupLinks ++ fst visited)) (S pageCounter) w'
    /\ ((Z.of_nat (List.length (allGroupLinks ++ fst visited)) < numLinksToGet)%Z ->
        w' = snd visited).
Proof.
  intros Hlt E Hne visited. rewrite while_pages_S, (page_body_cards net baseUrl numLinksToGet _ _ _ _ E Hne).
  destruct (for_cards_spec net baseUrl numLinksToGet (groupCards d) allGroupLinks
              (sent (currentUrl baseUrl pageCounter) w)) as (w' & Ef & Hw); [lia|].
  rewrite Ef. exists w'. split; [|exact Hw].
  now destruct (Z.ltb_spec (Z.of_nat (List.length allGroupLinks)) numLinksToGet); [|lia].
Qed.

Lemma site_invites_end fuel pageCounter w :
  (forall d, net (requests w) (currentUrl baseUrl pageCounter) = Fulfilled (Html d)
             -> groupCards d = []) ->
  site_invites net (S fuel) baseUrl pageCounter w = Some [].
Proof.
  intros H. simpl.
  destruct (net (requests w) (currentUrl baseUrl pageCounter)) as [[d|e]|e];
    try reflexivity.
  now rewrite (H d eq_refl).
Qed.

Lemma site_invites_next fuel pageCounter w d :
  net (requests w) (currentUrl baseUrl pageCounter) = Fulfilled (Html d) ->
  groupCards d <> [] ->
  let visited :=
    page_invites net baseUrl (groupCards d) (sent (currentUrl baseUrl pageCounter) w) in
  site_invites net (S fuel) baseUrl pageCounter w
  = match site_invites net fuel baseUrl (S pageCounter) (snd visited) with
    | Some l2 => Some (fst visited ++ l2)
    | None => None
    end.
Proof.
  intros E Hne visited. cbn [site_invites]. rewrite E.
  destruct (groupCards d) as [|c cs] eqn:Ec; [congruence|].
  subst visited. now destruct (page_invites net baseUrl (c :: cs) _).
Qed.

(** More fuel does not change a result. *)
Lemma while_pages_mono fuel :
  forall allGroupLinks pageCounter w r,
    while_pages net fuel baseUrl numLinksToGet allGroupLinks pageCounter w = Some r ->
    forall fuel', (fuel <= fuel')%nat ->
      while_pages net fuel' baseUrl numLinksToGet allGroupLinks pageCounter w = Some r.
Proof.
  induction fuel as [|fuel IH]; intros acc page w r H fuel' Hle; [discriminate|].
  destruct fuel' as [|fuel']; [lia|].
  rewrite while_pages_S in *.
  destruct (Z.of_nat (List.length acc) <? numLinksToGet)%Z; [|exact H].
  destruct (page_body net baseUrl numLinksToGet acc page w) as [[[[|] links]|e] w'];
    try exact H.
  apply (IH _ _ _ _ H). lia.
Qed.

Lemma site_invites_mono fuel :
  forall pageCounter w ls,
    site_invites net fuel baseUrl pageCounter w = Some ls ->
    forall fuel', (fuel <= fuel')%nat ->
      site_invites net fuel' baseUrl pageCounter w = Some ls.
Proof.
  induction fuel as [|fuel IH]; intros page w ls H fuel' Hle; [discriminate|].
  destruct fuel' as [|fuel']; [lia|].
  destruct (listing_cases page w) as [(d & E & Hne)|Hdown].
  - rewrite (site_invites_next fuel' _ _ _ E Hne).
    rewrite (site_invites_next fuel _ _ _ E Hne) in H.
    set (visited := page_invites net baseUrl (groupCards d) _) in *.
    destruct (site_invites net fuel baseUrl (S page) (snd visited)) as [l2|] eqn:E2;
      [|discriminate].
    rewrite (IH _ _ _ E2 fuel') by lia. exact H.
  - rewrite (site_invites_end fuel' _ _ Hdown).
    rewrite (site_invites_end fuel _ _ Hdown) in H. exact H.
Qed.

(** The array never grows past the target, the loop never throws, and
    every link it holds carries the marker. *)
Lemma while_pages_inv fuel :
  forall allGroupLinks pageCounter w c w',
    (Z.of_nat (List.length allGroupLinks) <= Z.max numLinksToGet 0)%Z ->
    Forall has_marker allGroupLinks ->
    while_pages net fuel baseUrl numLinksToGet allGroupLinks pageCounter w
    = Some (c, w') ->
    exists r, c = Normal r
              /\ (Z.of_nat (List.length r) <= Z.max numLinksToGet 0)%Z
              /\ Forall has_marker r.
Proof.
  induction fuel as [|fuel IH]; intros acc page w c w' Hle HF H; [discriminate|].
  destruct (Z.ltb_spec (Z.of_nat (List.length acc)) numLinksToGet) as [Hlt|Hge].
  - destruct (listing_cases page w) as [(d & E & Hne)|Hdown].
    + destruct (while_pages_next fuel acc page w d Hlt E Hne) as (w1 & E1 & _).
      rewrite E1 in H. apply IH in H; [exact H| |].
      * rewrite length_firstn. lia.
      * apply Forall_firstn, Forall_app. split; [exact HF|].
        apply page_invites_marker.
    + rewrite (while_pages_end _ _ _ _ Hlt Hdown) in H. injection H as <- <-.
      exists acc. repeat split; assumption.
  - rewrite (while_pages_done _ _ _ _ Hge) in H. injection H as <- <-.
    exists acc. repeat split; assumption.
Qed.

(** When pagination ends, the loop ends too, with the same fuel, and holds
    the first [numLinksToGet] links of the site. *)
Lemma while_pages_complete fuel :
  forall allGroupLinks pageCounter w ls,
    (Z.of_nat (List.length allGroupLinks) <= numLinksToGet)%Z ->
    site_invites net fuel baseUrl pageCounter w = Some ls ->
    exists w',
      while_pages net fuel baseUrl numLinksToGet allGroupLinks pageCounter w
      = Some (Normal (firstn (Z.to_nat numLinksToGet) (allGroupLinks ++ ls)), w').
Proof.
  induction fuel as [|fuel IH]; intros acc page w ls Hle H; [discriminate|].
  destruct (Z.ltb_spec (Z.of_nat (List.length acc)) numLinksToGet) as [Hlt|Hge].
  - destruct (listing_cases page w) as [(d & E & Hne)|Hdown].
    + rewrite (site_invites_next _ _ _ _ E Hne) in H.
      destruct (while_pages_next fuel acc page w d Hlt E Hne) as (w1 & E1 & Hw1).
      rewrite E1. clear E1.
      set (visited := page_invites net baseUrl (groupCards d) _) in *.
      destruct (site_invites net fuel baseUrl (S page) (snd visited)) as [l2|] eqn:E2;
        [|discriminate].
      injection H as <-.
      destruct (Z.ltb_spec (Z.of_nat (List.length (acc ++ fst visited))) numLinksToGet)
        as [Hlt'|Hge'].
      * rewrite (Hw1 Hlt'). rewrite firstn_all2 by lia.
        destruct (IH (acc ++ fst visited) (S page) (snd visited) l2) as (w' & E');
          [lia | exact E2 |].
        exists w'. now rewrite E', app_assoc.
      * destruct fuel as [|fuel]; [discriminate|].
        exists w1. rewrite while_pages_done.
        -- do 2 f_equal. rewrite app_assoc, (firstn_app _ (acc ++ fst visited)).
           replace (Z.to_nat numLinksToGet - List.length (acc ++ fst visited))%nat with 0%nat
             by lia.
           simpl. now rewrite app_nil_r.
        -- rewrite length_firstn. lia.
    + rewrite (site_invites_end _ _ _ Hdown) in H. injection H as <-.
      rewrite (while_pages_end _ _ _ _ Hlt Hdown), app_nil_r.
      eexists. now rewrite firstn_all2 by lia.
  - exists w. rewrite (while_pages_done _ _ _ _ Hge).
    assert (Z.to_nat numLinksToGet = List.length acc) as -> by lia.
    now rewrite firstn_full.
Qed.

(** When the loop ends short of the target, pagination has ended and the
    array holds every link of the site. *)
Lemma while_pages_short fuel :
  forall allGroupLinks pageCounter w r w',
    (Z.of_nat (List.length allGroupLinks) <= numLinksToGet)%Z ->
    while_pages net fuel baseUrl numLinksToGet allGroupLinks pageCounter w
    = Some (Normal r, w') ->
    (Z.of_nat (List.length r) < numLinksToGet)%Z ->
    exists ls, site_invites net fuel baseUrl pageCounter w = Some ls
               /\ r = allGroupLinks ++ ls.
Proof.
  induction fuel as [|fuel IH]; intros acc page w r w' Hle H Hr; [discriminate|].
  destruct (Z.ltb_spec (Z.of_nat (List.length acc)) numLinksToGet) as [Hlt|Hge].
  - destruct (listing_cases page w) as [(d & E & Hne)|Hdown].
    + rewrite (site_invites_next _ _ _ _ E Hne).
      destruct (while_pages_next fuel acc page w d Hlt E Hne) as (w1 & E1 & Hw1).
      rewrite E1 in H. clear E1.
      set (visited := page_invites net baseUrl (groupCards d) _) in *.
      destruct (Z.ltb_spec (Z.of_nat (List.length (acc ++ fst visited))) numLinksToGet)
        as [Hlt'|Hge'].
      * rewrite (Hw1 Hlt') in H. rewrite firstn_all2 in H by lia.
        destruct (IH _ _ _ _ _ (Z.lt_le_incl _ _ Hlt') H Hr) as (l2 & E2 & ->).
        rewrite E2. exists (fst visited ++ l2). now rewrite app_assoc.
      * destruct fuel as [|fuel]; [discriminate|].
        rewrite while_pages_done in H.
        -- injection H as <- <-. rewrite length_firstn in Hr. lia.
        -- rewrite length_firstn. lia.
    + rewrite (while_pages_end _ _ _ _ Hlt Hdown) in H. injection H as <- <-.
      rewrite (site_invites_end _ _ _ Hdown). exists []. now rewrite app_nil_r.
  - rewrite (while_pages_done _ _ _ _ Hge) in H. injection H as <- <-. lia.
Qed.

End PaginationFacts.

(* ================================================================== *)
(** ** Requests only accumulate *)

Section RequestFacts.

Variable net : Net.
Variable baseUrl : string.
Variable numLinksToGet : Z.

Lemma extends_refl w : extends w w.
Proof. exists []. now rewrite app_nil_r. Qed.

Lemma extends_trans w1 w2 w3 : extends w1 w2 -> extends w2 w3 -> extends w1 w3.
Proof.
  intros [m1 E1] [m2 E2]. exists (m1 ++ m2). now rewrite E2, E1, app_assoc.
Qed.

Lemma extends_sent u w : extends w (sent u w).
Proof. now exists [u]. Qed.

Lemma for_cards_extends cards :
  forall allGroupLinks w,
    extends w (snd (for_cards net baseUrl numLinksToGet cards allGroupLinks w)).
Proof.
  induction cards as [|card rest IH]; intros acc w; [apply extends_refl|].
  cbn [for_cards].
  destruct (Z.of_nat (List.length acc) <? numLinksToGet)%Z; [|apply extends_refl].
  destruct (linkTag card) as [href|]; [|apply IH].
  unfold bind. rewrite visit_detail_spec.
  eapply extends_trans; [apply extends_sent | apply IH].
Qed.

(** The first thing an iteration of the [while] loop does is to request
    its listing page. *)
Lemma page_body_requests allGroupLinks pageCounter w :
  extends (sent (currentUrl baseUrl pageCounter) w)
    (snd (page_body net baseUrl numLinksToGet allGroupLinks pageCounter w)).
Proof.
  destruct (listing_cases net baseUrl pageCounter w) as [(d & E & Hne)|Hdown].
  - rewrite (page_body_cards net baseUrl numLinksToGet _ _ _ _ E Hne).
    pose proof (for_cards_extends (groupCards d) allGroupLinks
                  (sent (currentUrl baseUrl pageCounter) w)) as H.
    now destruct (for_cards net baseUrl numLinksToGet (groupCards d) allGroupLinks
                    (sent (currentUrl baseUrl pageCounter) w)) as [[links|e] w'].
  - rewrite (page_body_down net baseUrl numLinksToGet _ _ _ Hdown).
    apply extends_refl.
Qed.

Lemma while_pages_extends fuel :
  forall allGroupLinks pageCounter w c w',
    while_pages net fuel baseUrl numLinksToGet allGroupLinks pageCounter w
    = Some (c, w') ->
    extends w w'
    /\ ((Z.of_nat (List.length allGroupLinks) < numLinksToGet)%Z ->
        extends (sent (currentUrl baseUrl pageCounter) w) w').
Proof.
  induction fuel as [|fuel IH]; intros acc page w c w' H; [discriminate|].
  rewrite while_pages_S in H.
  destruct (Z.ltb_spec (Z.of_nat (List.length acc)) numLinksToGet) as [Hlt|Hge].
  - pose proof (page_body_requests acc page w) as Hp.
    assert (extends (sent (currentUrl baseUrl page) w) w') as Hx.
    { destruct (page_body net baseUrl numLinksToGet acc page w)
        as [[[[|] links]|e] w1]; cbn [snd] in Hp.
      - now injection H as <- <-.
      - apply IH in H as [H _]. eapply extends_trans; eassumption.
      - now injection H as <- <-. }
    split; [|intros _; exact Hx].
    eapply extends_trans; [apply extends_sent | exact Hx].
  - injection H as <- <-. split; [apply extends_refl | lia].
Qed.

End RequestFacts.

(* ================================================================== *)
(** ** The collector as a whole *)

Section CollectorResults.

Variable net : Net.
Variable baseUrl : string.
Variable numLinksToGet : Z.

Lemma slice0_keeps (l : list string) :
  (Z.of_nat (List.length l) <= Z.max numLinksToGet 0)%Z ->
  Js.slice0 l numLinksToGet = l.
Proof.
  intros H. unfold Js.slice0.
  destruct (Z.ltb_spec numLinksToGet 0); apply firstn_all2; lia.
Qed.

Lemma getWhatsappGroupLinks_while fuel w :
  getWhatsappGroupLinks net fuel baseUrl numLinksToGet w
  = while_pages net fuel baseUrl numLinksToGet [] 1 w.
Proof.
  unfold getWhatsappGroupLinks.
  destruct (while_pages net fuel baseUrl numLinksToGet [] 1 w) as [[c w']|] eqn:E;
    [|reflexivity].
  destruct (while_pages_inv net baseUrl numLinksToGet fuel [] 1 w c w')
    as (r & -> & Hlen & _); [simpl; lia | constructor | exact E |].
  now rewrite slice0_keeps.
Qed.

Lemma getWhatsappGroupLinks_mono fuel fuel' w r :
  getWhatsappGroupLinks net fuel baseUrl numLinksToGet w = Some r ->
  (fuel <= fuel')%nat ->
  getWhatsappGroupLinks net fuel' baseUrl numLinksToGet w = Some r.
Proof.
  rewrite !getWhatsappGroupLinks_while. intros H Hle.
  exact (while_pages_mono net baseUrl numLinksToGet fuel _ _ _ _ H fuel' Hle).
Qed.

(** The collector never throws, never returns more than the target, and
    returns only links that carry the marker. *)
Lemma getWhatsappGroupLinks_inv fuel w c w' :
  getWhatsappGroupLinks net fuel baseUrl numLinksToGet w = Some (c, w') ->
  exists r, c = Normal r
            /\ (Z.of_nat (List.length r) <= Z.max numLinksToGet 0)%Z
            /\ Forall has_marker r.
Proof.
  rewrite getWhatsappGroupLinks_while.
  apply while_pages_inv; [simpl; lia | constructor].
Qed.

(** With a site that is [barren] the loop is never left. *)
Lemma barren_never_ends :
  barren net baseUrl -> (0 < numLinksToGet)%Z ->
  forall fuel pageCounter w,
    while_pages net fuel baseUrl numLinksToGet [] pageCounter w = None.
Proof.
  intros [Hcards Hnone] Hpos.
  assert (Hpage : forall cards w, fst (page_invites net baseUrl cards w) = []).
  { induction cards as [|card rest IH]; intros w; [reflexivity|].
    rewrite page_invites_cons; cbn [fst]. rewrite IH, app_nil_r.
    unfold card_invites. destruct (linkTag card); [apply Hnone | reflexivity]. }
  induction fuel as [|fuel IH]; intros page w; [reflexivity|].
  destruct (Hcards w page) as (d & E & Hne).
  destruct (while_pages_next net baseUrl numLinksToGet fuel [] page w d)
    as (w' & E' & _); [simpl; lia | exact E | exact Hne |].
  rewrite E', Hpage, firstn_nil. apply IH.
Qed.

End CollectorResults.

(* ================================================================== *)
(** ** The endpoint of the links *)

Section EndpointFacts.

Variable net : Net.

Lemma query_base_url_truthy req : Js.truthy (query_base_url req) = true.
Proof.
  unfold query_base_url, Js.or_default.
  destruct (base_url req) as [s|]; [|reflexivity].
  now destruct (Js.truthy s) eqn:E.
Qed.

(** When the parameters pass line 152 the handler answers from what the
    collector returns. *)
Lemma get_whatsapp_links_valid fuel req w :
  (0 < query_num_links req)%Z ->
  get_whatsapp_links net fuel req w
  = respond_links
      (getWhatsappGroupLinks net fuel (query_base_url req) (query_num_links req) w).
Proof.
  intros H. unfold get_whatsapp_links. rewrite query_base_url_truthy.
  now destruct (Z.leb_spec (query_num_links req) 0); [lia|].
Qed.

(** A negative [num_links] is answered 400 and nothing is requested. *)
Lemma negative_num_links_rejected fuel req w v :
  Js.parseInt (Js.toString (num_links req)) = Some v -> (v < 0)%Z ->
  get_whatsapp_links net fuel req w
  = Some ({| status := 400; body := JError invalid_parameters |}, w).
Proof.
  intros E Hv. unfold get_whatsapp_links, query_num_links. rewrite E. simpl.
  destruct (Z.eqb_spec v 0); [lia|].
  destruct (Z.leb_spec v 0); [|lia]. now rewrite orb_true_r.
Qed.

Lemma respond_links_status settled resp w' :
  respond_links settled = Some (resp, w') ->
  status resp = 404%Z \/ status resp = 200%Z \/ status resp = 500%Z.
Proof.
  unfold respond_links. destruct settled as [[[links|e] w1]|]; [| |discriminate].
  - destruct (List.length links =? 0)%nat; intros [= <- <-]; simpl; auto.
  - intros [= <- <-]; simpl; auto.
Qed.

End EndpointFacts.

(* ================================================================== *)
(** ** The category lister *)

Section CategoryFacts.

Lemma each_category_listed categories el :
  each_category categories el
  = if listed el then categories ++ [pair_of el] else categories.
Proof.
  unfold each_category, listed, pair_of, Js.truthy.
  destruct (anchor_href el) as [u|]; [|now rewrite andb_false_r].
  reflexivity.
Qed.

Lemma each_category_fold anchors :
  forall categories,
    fold_left each_category anchors categories
    = categories ++ map pair_of (filter listed anchors).
Proof.
  induction anchors as [|el rest IH]; intros acc; simpl.
  - now rewrite app_nil_r.
  - rewrite IH, each_category_listed.
    destruct (listed el); [|reflexivity]. simpl. now rewrite <- app_assoc.
Qed.

Lemma getCategories_fulfilled net baseUrl w d :
  net (requests w) baseUrl = Fulfilled (Html d) ->
  getCategories net baseUrl w
  = (Normal (map pair_of (filter listed (categoryAnchors d))), sent baseUrl w).
Proof.
  intros E. unfold getCategories, try_catch, bind, axios_get. rewrite E. simpl.
  unfold ret. now rewrite each_category_fold.
Qed.

End CategoryFacts.

(* ================================================================== *)
(** ** The properties of the specification *)

(** C1, at the input where the handler departs from it: a request with
    [num_links=0] asks for a value that is not positive, yet line 150 has
    replaced the zero by 5 before line 152 looks at it. Whenever the handler
    answers such a request, the status is not 400 and the first listing page
    has been requested. *)
Theorem num_links_zero_is_collected net fuel base w resp w' :
  get_whatsapp_links net fuel {| base_url := base; num_links := Some "0" |} w
  = Some (resp, w') ->
  Js.parseInt "0" = Some 0%Z
  /\ status resp <> 400%Z
  /\ extends
       (sent (currentUrl (query_base_url {| base_url := base; num_links := Some "0" |}) 1) w)
       w'.
Proof.
  set (req := {| base_url := base; num_links := Some "0" |}).
  rewrite (get_whatsapp_links_valid net fuel req w) by (vm_compute; reflexivity).
  change (query_num_links req) with 5%Z. intros H.
  split; [reflexivity|]. split.
  - apply respond_links_status in H. lia.
  - unfold respond_links in H.
    destruct (getWhatsappGroupLinks net fuel (query_base_url req) 5 w)
      as [[c w1]|] eqn:E; [|discriminate].
    rewrite getWhatsappGroupLinks_while in E.
    apply while_pages_extends in E as [_ E]. specialize (E ltac:(simpl; lia)).
    destruct c as [links|e]; [destruct (List.length links =? 0)%nat|];
      injection H as <- <-; exact E.
Qed.

Lemma num_links_zero_is_collected_witness :
  Js.parseInt "0" = Some 0%Z
  /\ status {| status := 404; body := JError no_links_found |} <> 400%Z
  /\ extends (sent "https://gruposwhats.app?page=1" start)
       {| requests := ["https://gruposwhats.app?page=1"]; console := [] |}.
Proof.
  apply (num_links_zero_is_collected Sites.down 1 None start).
  vm_compute. reflexivity.
Defined.

(** C2: for a target above zero and any site, what the collector returns
    is never longer than the target; its length is the smaller of the target
    and the number of valid invite links the site yields before pagination
    ends; a result shorter than the target means pagination has ended; and
    when pagination ends the collector does return. *)
Theorem collector_length net baseUrl target w :
  (0 < target)%Z ->
  (forall fuel c w',
      getWhatsappGroupLinks net fuel baseUrl target w = Some (c, w') ->
      exists links,
        c = Normal links
        /\ (Z.of_nat (List.length links) <= target)%Z
        /\ (forall fuel' available,
               available_links net fuel' baseUrl w = Some available ->
               Z.of_nat (List.length links) = Z.min target (Z.of_nat available))
        /\ ((Z.of_nat (List.length links) < target)%Z ->
            available_links net fuel baseUrl w = Some (List.length links)))
  /\ (forall fuel available,
         available_links net fuel baseUrl w = Some available ->
         exists links w',
           getWhatsappGroupLinks net fuel baseUrl target w = Some (Normal links, w')
           /\ Z.of_nat (List.length links) = Z.min target (Z.of_nat available)).
Proof.
  intros Hpos.
  assert (Hrun : forall fuel available,
             available_links net fuel baseUrl w = Some available ->
             exists links w',
               getWhatsappGroupLinks net fuel baseUrl target w = Some (Normal links, w')
               /\ Z.of_nat (List.length links) = Z.min target (Z.of_nat available)).
  { intros fuel available H. unfold available_links in H.
    destruct (site_invites net fuel baseUrl 1 w) as [ls|] eqn:E; [|discriminate].
    injection H as <-.
    destruct (while_pages_complete net baseUrl target fuel [] 1 w ls) as (w' & E');
      [simpl; lia | exact E |].
    exists (firstn (Z.to_nat target) ls), w'.
    rewrite getWhatsappGroupLinks_while. split; [exact E'|].
    rewrite length_firstn. lia. }
  split; [|exact Hrun].
  intros fuel c w' H.
  destruct (getWhatsappGroupLinks_inv net baseUrl target fuel w c w' H)
    as (links & -> & Hlen & _).
  exists links. split; [reflexivity|]. split; [lia|]. split.
  - intros fuel' available Ha.
    destruct (Hrun fuel' available Ha) as (links' & w'' & E' & Hl).
    apply (getWhatsappGroupLinks_mono net baseUrl target fuel (Nat.max fuel fuel')) in H;
      [|lia].
    apply (getWhatsappGroupLinks_mono net baseUrl target fuel' (Nat.max fuel fuel')) in E';
      [|lia].
    rewrite H in E'. injection E' as <- _. exact Hl.
  - intros Hshort. rewrite getWhatsappGroupLinks_while in H.
    destruct (while_pages_short net baseUrl target fuel [] 1 w links w')
      as (ls & E & ->); [simpl; lia | exact H | exact Hshort |].
    unfold available_links. now rewrite E.
Qed.

Lemma collector_length_witness :
  exists links w',
    getWhatsappGroupLinks Sites.small 2 "https://site.test/" 5 start
    = Some (Normal links, w')
    /\ Z.of_nat (List.length links) = Z.min 5 (Z.of_nat 2).
Proof.
  apply (proj2 (collector_length Sites.small "https://site.test/" 5 start
                  ltac:(lia)) 2%nat 2%nat).
  vm_compute. reflexivity.
Defined.

(** C3: every string the collector returns contains the invite-domain
    marker, and a card whose detail page has a call-to-action whose data-url
    does not contain the marker leaves the array of links as it was. *)
Theorem links_carry_marker net baseUrl numLinksToGet :
  (forall fuel w c w',
      getWhatsappGroupLinks net fuel baseUrl numLinksToGet w = Some (c, w') ->
      exists links,
        c = Normal links
        /\ Forall (fun link => exists a b, link = (a ++ marker ++ b)%string) links)
  /\ (forall card rest href allGroupLinks w d data_url others,
         (Z.of_nat (List.length allGroupLinks) < numLinksToGet)%Z ->
         linkTag card = Some href ->
         net (requests w) (detailPageUrl baseUrl href) = Fulfilled (Html d) ->
         whatsappLinkTags d = data_url :: others ->
         (forall a b, data_url <> (a ++ marker ++ b)%string) ->
         for_cards net baseUrl numLinksToGet (card :: rest) allGroupLinks w
         = for_cards net baseUrl numLinksToGet rest allGroupLinks
             (sent (detailPageUrl baseUrl href) w)).
Proof.
  split.
  - intros fuel w c w' H.
    destruct (getWhatsappGroupLinks_inv net baseUrl numLinksToGet fuel w c w' H)
      as (links & -> & _ & HF).
    exists links. split; [reflexivity|].
    eapply Forall_impl; [|exact HF]. intros link Hl. now apply includes_spec.
  - intros card rest href acc w d data_url others Hlt Hcard E Hd Hno.
    cbn [for_cards].
    destruct (Z.ltb_spec (Z.of_nat (List.length acc)) numLinksToGet); [|lia].
    rewrite Hcard. unfold bind. rewrite visit_detail_spec.
    unfold invite_of_detail. rewrite E, Hd.
    destruct (Js.includes data_url marker) eqn:Ei.
    + apply includes_spec in Ei as (a & b & ->). now destruct (Hno a b).
    + now rewrite app_nil_r.
Qed.

Lemma links_carry_marker_witness :
  (exists links,
      Normal ["https://chat.whatsapp.com/A"; "https://chat.whatsapp.com/X"]
      = Normal links
      /\ Forall (fun link => exists a b, link = (a ++ marker ++ b)%string) links)
  /\ for_cards Sites.small "https://site.test/" 5
       [Sites.card "/g/b"; Sites.card "/g/a"] [] start
     = for_cards Sites.small "https://site.test/" 5 [Sites.card "/g/a"] []
         (sent "https://site.test/g/b" start).
Proof.
  split.
  - apply (proj1 (links_carry_marker Sites.small "https://site.test/" 5) 5%nat start
             _ {| requests :=
                    ["https://site.test/?page=1"; "https://site.test/g/a";
                     "https://site.test/g/b"; "http://other.test/x";
                     "https://site.test/?page=2"];
                  console := [] |}).
    vm_compute. reflexivity.
  - apply (proj2 (links_carry_marker Sites.small "https://site.test/" 5)
             (Sites.card "/g/b") [Sites.card "/g/a"] "/g/b" [] start
             {| groupCards := []; whatsappLinkTags := ["https://t.me/B"];
                categoryAnchors := [] |}
             "https://t.me/B" []);
      try reflexivity; try (simpl; lia).
    intros a b E.
    assert (Js.includes "https://t.me/B" marker = true) as H
        by (apply includes_spec; now exists a, b).
    vm_compute in H. discriminate.
Defined.

(** C4: when the fetch of a listing page fails the loop is left at once
    and the links gathered so far are what is returned; when the fetch of a
    detail page fails only that card is skipped and the loop goes on with the
    remaining cards; and the collector never completes by throwing. *)
Theorem fetch_failures_are_absorbed net baseUrl numLinksToGet :
  (forall fuel allGroupLinks pageCounter w e,
      (Z.of_nat (List.length allGroupLinks) < numLinksToGet)%Z ->
      net (requests w) (currentUrl baseUrl pageCounter) = Rejected e ->
      while_pages net (S fuel) baseUrl numLinksToGet allGroupLinks pageCounter w
      = Some (Normal allGroupLinks, sent (currentUrl baseUrl pageCounter) w)
      /\ Js.slice0 allGroupLinks numLinksToGet = allGroupLinks)
  /\ (forall card rest href allGroupLinks w e,
         (Z.of_nat (List.length allGroupLinks) < numLinksToGet)%Z ->
         linkTag card = Some href ->
         net (requests w) (detailPageUrl baseUrl href) = Rejected e ->
         for_cards net baseUrl numLinksToGet (card :: rest) allGroupLinks w
         = for_cards net baseUrl numLinksToGet rest allGroupLinks
             (sent (detailPageUrl baseUrl href) w))
  /\ (forall fuel w c w',
         getWhatsappGroupLinks net fuel baseUrl numLinksToGet w = Some (c, w') ->
         exists links, c = Normal links).
Proof.
  split; [|split].
  - intros fuel acc page w e Hlt E. split.
    + apply while_pages_end; [exact Hlt|]. intros d Hd. congruence.
    + apply slice0_keeps. lia.
  - intros card rest href acc w e Hlt Hcard E. cbn [for_cards].
    destruct (Z.ltb_spec (Z.of_nat (List.length acc)) numLinksToGet); [|lia].
    rewrite Hcard. unfold bind. rewrite visit_detail_spec.
    unfold invite_of_detail. rewrite E. now rewrite app_nil_r.
  - intros fuel w c w' H.
    destruct (getWhatsappGroupLinks_inv net baseUrl numLinksToGet fuel w c w' H)
      as (links & -> & _).
    now exists links.
Qed.

Lemma fetch_failures_are_absorbed_witness :
  (while_pages Sites.down 1 "https://site.test/" 5 ["https://chat.whatsapp.com/A"] 3 start
   = Some (Normal ["https://chat.whatsapp.com/A"],
           sent (currentUrl "https://site.test/" 3) start)
   /\ Js.slice0 ["https://chat.whatsapp.com/A"] 5 = ["https://chat.whatsapp.com/A"])
  /\ for_cards Sites.small "https://site.test/" 5
       [Sites.card "/g/gone"; Sites.card "/g/a"] [] start
     = for_cards Sites.small "https://site.test/" 5 [Sites.card "/g/a"] []
         (sent (detailPageUrl "https://site.test/" "/g/gone") start).
Proof.
  split.
  - apply (proj1 (fetch_failures_are_absorbed Sites.down "https://site.test/" 5)
             0%nat ["https://chat.whatsapp.com/A"] 3%nat start
             {| message := "Request failed with status code 404" |});
      [simpl; lia | reflexivity].
  - apply (proj1 (proj2 (fetch_failures_are_absorbed Sites.small "https://site.test/" 5))
             (Sites.card "/g/gone") [Sites.card "/g/a"] "/g/gone" [] start
             {| message := "Request failed with status code 404" |});
      [simpl; lia | reflexivity | reflexivity].
Defined.

(** C5: when the first listing page has no group card the collector
    returns the empty sequence, and the endpoint answers 404 whenever the
    collector has returned the empty sequence. *)
Theorem no_cards_on_first_page net :
  (forall fuel baseUrl numLinksToGet w d,
      net (requests w) (currentUrl baseUrl 1) = Fulfilled (Html d) ->
      groupCards d = [] ->
      exists w',
        getWhatsappGroupLinks net (S fuel) baseUrl numLinksToGet w
        = Some (Normal [], w'))
  /\ (forall fuel req w w',
         (0 < query_num_links req)%Z ->
         getWhatsappGroupLinks net fuel (query_base_url req) (query_num_links req) w
         = Some (Normal [], w') ->
         get_whatsapp_links net fuel req w
         = Some ({| status := 404; body := JError no_links_found |}, w')).
Proof.
  split.
  - intros fuel baseUrl n w d E Hd. rewrite getWhatsappGroupLinks_while.
    destruct (Z.ltb_spec (Z.of_nat (@List.length string [])) n) as [Hlt|Hge].
    + eexists. apply while_pages_end; [exact Hlt|].
      intros d' Hd'. congruence.
    + eexists. now apply while_pages_done.
  - intros fuel req w w' Hpos E.
    now rewrite (get_whatsapp_links_valid net fuel req w Hpos), E.
Qed.

Lemma no_cards_on_first_page_witness :
  (exists w',
      getWhatsappGroupLinks Sites.empty 1 "https://site.test" 5 start
      = Some (Normal [], w'))
  /\ get_whatsapp_links Sites.empty 1
       {| base_url := Some "https://site.test"; num_links := Some "7" |} start
     = Some ({| status := 404; body := JError no_links_found |},
             sent "https://site.test?page=1" start).
Proof.
  split.
  - apply (proj1 (no_cards_on_first_page Sites.empty) 0%nat "https://site.test" 5%Z
             start {| groupCards := []; whatsappLinkTags := []; categoryAnchors := [] |});
      reflexivity.
  - apply (proj2 (no_cards_on_first_page Sites.empty) 1%nat
             {| base_url := Some "https://site.test"; num_links := Some "7" |} start);
      [vm_compute; reflexivity | vm_compute; reflexivity].
Defined.

(** C6, as the specification states it, fails: an href with a scheme
    other than http(s) is joined to the base. *)
Lemma scheme_other_than_http_is_joined :
  has_scheme "ftp://other.test/x" = true
  /\ detailPageUrl "https://site.test/" "ftp://other.test/x"
     = "https://site.test/ftp://other.test/x"
  /\ ~ resolution_by_scheme.
Proof.
  split; [reflexivity|]. split; [reflexivity|].
  intros H. destruct (H "https://site.test/" "ftp://other.test/x") as [H1 _].
  specialize (H1 eq_refl). vm_compute in H1. discriminate.
Qed.

(** C6, amended: an href that starts with [http] is used unchanged; any
    other href is joined to the base, the base without one trailing slash
    when it has one, the href without one leading slash when it has one,
    with a single slash between them. *)
Theorem detail_url_resolution baseUrl href :
  (Js.startsWith href "http" = true -> detailPageUrl baseUrl href = href)
  /\ (Js.startsWith href "http" = false ->
      forall b h,
        (baseUrl = (b ++ "/")%string
         \/ (baseUrl = b /\ forall b', baseUrl <> (b' ++ "/")%string)) ->
        (href = ("/" ++ h)%string
         \/ (href = h /\ forall h', href <> ("/" ++ h')%string)) ->
        detailPageUrl baseUrl href = (b ++ "/" ++ h)%string).
Proof.
  unfold detailPageUrl. split; intros E; rewrite E; [reflexivity|].
  intros b h Hb Hh. cbn [negb]. f_equal; [|f_equal].
  - destruct Hb as [->|[-> Hb]].
    + apply replace_trailing_slash_app.
    + now apply replace_trailing_slash_other.
  - destruct Hh as [->|[-> Hh]].
    + apply replace_leading_slash_app.
    + now apply replace_leading_slash_other.
Qed.

Lemma detail_url_resolution_witness :
  detailPageUrl "https://site.test/" "http://other.test/x" = "http://other.test/x"
  /\ detailPageUrl "https://site.test/" "/g/abc" = "https://site.test/g/abc".
Proof.
  split.
  - apply (proj1 (detail_url_resolution "https://site.test/" "http://other.test/x")).
    reflexivity.
  - apply (proj2 (detail_url_resolution "https://site.test/" "/g/abc")
             eq_refl "https://site.test" "g/abc"); left; reflexivity.
Defined.

(** C7: on a home page that is fetched and parsed, the category lister
    returns the (name, url) pairs of the anchors whose trimmed name and href
    are both non-empty: one pair for each such anchor, none for the others,
    in the order of the document. *)
Theorem categories_in_document_order net baseUrl w d :
  net (requests w) baseUrl = Fulfilled (Html d) ->
  getCategories net baseUrl w
  = (Normal (map pair_of (filter listed (categoryAnchors d))), sent baseUrl w).
Proof.
  intros E. unfold getCategories, try_catch, bind, axios_get. rewrite E. simpl.
  unfold ret. now rewrite each_category_fold.
Qed.

Lemma categories_in_document_order_witness :
  getCategories Sites.home "https://site.test" start
  = (Normal [ {| name := "Amizade"; url := "/c/amizade" |};
              {| name := "Games"; url := "/c/games" |} ],
     sent "https://site.test" start).
Proof.
  apply (categories_in_document_order Sites.home "https://site.test" start
           {| groupCards := []; whatsappLinkTags := [];
              categoryAnchors :=
                [ {| category_name_text := " Amizade "; anchor_href := Some "/c/amizade" |};
                  {| category_name_text := "   "; anchor_href := Some "/c/blank" |};
                  {| category_name_text := "Jogos"; anchor_href := None |};
                  {| category_name_text := "Games"; anchor_href := Some "/c/games" |} ] |}).
  reflexivity.
Defined.

(** C8: when the fetch of the home page fails, or the page cannot be
    parsed, the category lister returns the empty sequence; it completes
    normally, having written one line to the console. *)
Theorem categories_failure_absorbed net baseUrl w e :
  net (requests w) baseUrl = Rejected e
  \/ net (requests w) baseUrl = Fulfilled (NotHtml e) ->
  getCategories net baseUrl w
  = (Normal [],
     {| requests := requests w ++ [baseUrl];
        console := console w ++ [("Erro ao buscar categorias: " ++ message e)%string] |}).
Proof.
  intros [E|E]; unfold getCategories, try_catch, bind, axios_get; rewrite E;
    reflexivity.
Qed.

Lemma categories_failure_absorbed_witness :
  getCategories Sites.down "https://site.test" start
  = (Normal [],
     {| requests := ["https://site.test"];
        console := ["Erro ao buscar categorias: Request failed with status code 404"] |})
  /\ getCategories Sites.garbled "https://site.test" start
     = (Normal [],
        {| requests := ["https://site.test"];
           console := ["Erro ao buscar categorias: cheerio.load() expects a string"] |}).
Proof.
  split.
  - apply (categories_failure_absorbed Sites.down "https://site.test" start
             {| message := "Request failed with status code 404" |}).
    left. reflexivity.
  - apply (categories_failure_absorbed Sites.garbled "https://site.test" start
             {| message := "cheerio.load() expects a string" |}).
    right. reflexivity.
Defined.

(** C9: there is a site, on which every listing page is fetched and has a
    group card and no detail page yields a data-url with the marker, such
    that the collector called with a target above zero never returns: no
    amount of fuel lets the loop end. *)
Theorem collector_may_run_forever baseUrl :
  exists net,
    barren net baseUrl
    /\ forall numLinksToGet w fuel,
         (0 < numLinksToGet)%Z ->
         getWhatsappGroupLinks net fuel baseUrl numLinksToGet w = None.
Proof.
  exists Sites.endless.
  assert (B : barren Sites.endless baseUrl).
  { split.
    - intros w page. eexists. split; [reflexivity | discriminate].
    - intros w u. reflexivity. }
  split; [exact B|].
  intros n w fuel Hpos. rewrite getWhatsappGroupLinks_while.
  now apply barren_never_ends.
Qed.

Lemma collector_may_run_forever_witness :
  exists net, getWhatsappGroupLinks net 1000 "https://site.test" 3 start = None.
Proof.
  destruct (collector_may_run_forever "https://site.test") as (net & _ & H).
  exists net. apply H. lia.
Defined.

(** C10: when [num_links] is absent, is not a number, or parses to zero,
    line 150 gives 5: the request is not answered 400, and the answer is the
    one built from the collector run with target 5. *)
Theorem num_links_defaults_to_five net fuel req w :
  num_links req = None
  \/ Js.parseInt (Js.toString (num_links req)) = None
  \/ Js.parseInt (Js.toString (num_links req)) = Some 0%Z ->
  query_num_links req = 5%Z
  /\ get_whatsapp_links net fuel req w
     = respond_links (getWhatsappGroupLinks net fuel (query_base_url req) 5 w)
  /\ forall resp w',
       get_whatsapp_links net fuel req w = Some (resp, w') -> status resp <> 400%Z.
Proof.
  intros H.
  assert (E : query_num_links req = 5%Z).
  { unfold query_num_links. destruct H as [H|[H|H]]; now rewrite H. }
  assert (E' : get_whatsapp_links net fuel req w
               = respond_links (getWhatsappGroupLinks net fuel (query_base_url req) 5 w)).
  { rewrite get_whatsapp_links_valid by lia. now rewrite E. }
  split; [exact E|]. split; [exact E'|].
  intros resp w' Hr. rewrite E' in Hr. apply respond_links_status in Hr. lia.
Qed.

Lemma num_links_defaults_to_five_witness :
  (query_num_links {| base_url := None; num_links := None |} = 5%Z
   /\ query_num_links {| base_url := None; num_links := Some "many" |} = 5%Z
   /\ query_num_links {| base_url := None; num_links := Some "0" |} = 5%Z)
  /\ get_whatsapp_links Sites.down 1 {| base_url := None; num_links := Some "0" |} start
     = respond_links (getWhatsappGroupLinks Sites.down 1 default_base_url 5 start).
Proof.
  split; [split; [|split]|].
  - apply (num_links_defaults_to_five Sites.down 1
             {| base_url := None; num_links := None |} start).
    left. reflexivity.
  - apply (num_links_defaults_to_five Sites.down 1
             {| base_url := None; num_links := Some "many" |} start).
    right. left. reflexivity.
  - apply (num_links_defaults_to_five Sites.down 1
             {| base_url := None; num_links := Some "0" |} start).
    right. right. reflexivity.
  - apply (num_links_defaults_to_five Sites.down 1
             {| base_url := None; num_links := Some "0" |} start).
    right. right. reflexivity.
Defined.

(* ================================================================== *)
(** ** Further properties: what is requested, what is written *)

Section TraceFacts.

Variable net : Net.
Variable baseUrl : string.
Variable numLinksToGet : Z.
Variable P : string -> Prop.

Hypothesis listing_ok : forall pageCounter, P (currentUrl baseUrl pageCounter).
Hypothesis detail_ok : forall href, P (detailPageUrl baseUrl href).

Lemma requested_refl w : requested P w w.
Proof. exists []. now rewrite app_nil_r. Qed.

Lemma requested_trans w1 w2 w3 :
  requested P w1 w2 -> requested P w2 w3 -> requested P w1 w3.
Proof.
  intros (m1 & E1 & F1 & C1) (m2 & E2 & F2 & C2). exists (m1 ++ m2).
  rewrite E2, E1, app_assoc. repeat split; [now apply Forall_app | congruence].
Qed.

Lemma requested_sent u w : P u -> requested P w (sent u w).
Proof. intros H. exists [u]. repeat split. now constructor. Qed.

Lemma for_cards_requested cards :
  forall allGroupLinks w,
    requested P w (snd (for_cards net baseUrl numLinksToGet cards allGroupLinks w)).
Proof.
  induction cards as [|card rest IH]; intros acc w; [apply requested_refl|].
  cbn [for_cards].
  destruct (Z.of_nat (List.length acc) <? numLinksToGet)%Z; [|apply requested_refl].
  destruct (linkTag card) as [href|]; [|apply IH].
  unfold bind. rewrite visit_detail_spec.
  eapply requested_trans; [apply requested_sent, detail_ok | apply IH].
Qed.

Lemma page_body_requested allGroupLinks pageCounter w :
  requested P w (snd (page_body net baseUrl numLinksToGet allGroupLinks pageCounter w)).
Proof.
  eapply requested_trans; [apply (requested_sent _ w (listing_ok pageCounter))|].
  destruct (listing_cases net baseUrl pageCounter w) as [(d & E & Hne)|Hdown].
  - rewrite (page_body_cards net baseUrl numLinksToGet _ _ _ _ E Hne).
    pose proof (for_cards_requested (groupCards d) allGroupLinks
                  (sent (currentUrl baseUrl pageCounter) w)) as H.
    now destruct (for_cards net baseUrl numLinksToGet (groupCards d) allGroupLinks
                    (sent (currentUrl baseUrl pageCounter) w)) as [[links|e] w'].
  - rewrite (page_body_down net baseUrl numLinksToGet _ _ _ Hdown).
    apply requested_refl.
Qed.

Lemma while_pages_requested fuel :
  forall allGroupLinks pageCounter w c w',
    while_pages net fuel baseUrl numLinksToGet allGroupLinks pageCounter w
    = Some (c, w') ->
    requested P w w'.
Proof.
  induction fuel as [|fuel IH]; intros acc page w c w' H; [discriminate|].
  rewrite while_pages_S in H.
  destruct (Z.of_nat (List.length acc) <? numLinksToGet)%Z.
  - pose proof (page_body_requested acc page w) as Hp.
    destruct (page_body net baseUrl numLinksToGet acc page w)
      as [[[[|] links]|e] w1]; cbn [snd] in Hp.
    + now injection H as <- <-.
    + apply IH in H. eapply requested_trans; eassumption.
    + now injection H as <- <-.
  - injection H as <- <-. apply requested_refl.
Qed.

End TraceFacts.

(* ================================================================== *)
(** ** Further properties: URLs and numbers *)

Section UrlFacts.

Local Open Scope string_scope.

Lemma string_app_inv_head (a b c : string) : a ++ b = a ++ c -> b = c.
Proof. induction a as [|x a IH]; simpl; intros H; [exact H|]. injection H as H. auto. Qed.

Lemma of_nat_inj p q : Js.of_nat p = Js.of_nat q -> p = q.
Proof.
  unfold Js.of_nat. intros H. apply Unsigned.to_uint_inj.
  apply (f_equal NilEmpty.uint_of_string) in H.
  rewrite !NilEmpty.usu in H. now injection H.
Qed.

(** Removing a trailing slash keeps an [http] prefix. *)
Lemma replace_trailing_slash_http (s : string) :
  Js.startsWith s "http" = true ->
  Js.startsWith (Js.replace_trailing_slash s) "http" = true.
Proof.
  unfold Js.startsWith. intros H. apply prefix_app in H as [t ->].
  apply prefix_app. destruct t as [|c t].
  - now exists "".
  - exists (Js.replace_trailing_slash (String c t)). reflexivity.
Qed.

Lemma startsWith_app (s t p : string) :
  Js.startsWith s p = true -> Js.startsWith (s ++ t) p = true.
Proof.
  unfold Js.startsWith. intros H. apply prefix_app in H as [r ->].
  apply prefix_app. exists (r ++ t).
  clear. induction p as [|c p IH]; simpl; [reflexivity | now rewrite IH].
Qed.





End UrlFacts.

(* ================================================================== *)
(** ** Further properties: the loop under different targets *)

Section TargetFacts.

Variable net : Net.
Variable baseUrl : string.

Lemma firstn_app_keep {A} (l1 l2 : list A) n :
  (List.length l1 <= n)%nat -> firstn n (l1 ++ l2) = l1 ++ firstn (n - List.length l1) l2.
Proof. intros H. now rewrite firstn_app, firstn_all2. Qed.

(** The array only grows. *)
Lemma while_pages_grows numLinksToGet fuel :
  forall allGroupLinks pageCounter w r w',
    while_pages net fuel baseUrl numLinksToGet allGroupLinks pageCounter w
    = Some (Normal r, w') ->
    exists more, r = allGroupLinks ++ more.
Proof.
  induction fuel as [|fuel IH]; intros acc page w r w' H; [discriminate|].
  destruct (Z.ltb_spec (Z.of_nat (List.length acc)) numLinksToGet) as [Hlt|Hge].
  - destruct (listing_cases net baseUrl page w) as [(d & E & Hne)|Hdown].
    + destruct (while_pages_next net baseUrl numLinksToGet fuel acc page w d Hlt E Hne)
        as (w1 & E1 & _).
      rewrite E1 in H. apply IH in H as [more ->].
      rewrite firstn_app_keep by lia. rewrite <- app_assoc. now eexists.
    + rewrite (while_pages_end net baseUrl numLinksToGet _ _ _ _ Hlt Hdown) in H.
      injection H as <- <-. exists []. now rewrite app_nil_r.
  - rewrite (while_pages_done net baseUrl numLinksToGet _ _ _ _ Hge) in H.
    injection H as <- <-. exists []. now rewrite app_nil_r.
Qed.

(** A smaller target follows the same run and stops earlier. *)
Lemma while_pages_prefix n m fuel :
  (n <= m)%Z ->
  forall allGroupLinks pageCounter w r w',
    (Z.of_nat (List.length allGroupLinks) <= n)%Z ->
    while_pages net fuel baseUrl m allGroupLinks pageCounter w = Some (Normal r, w') ->
    exists w'',
      while_pages net fuel baseUrl n allGroupLinks pageCounter w
      = Some (Normal (firstn (Z.to_nat n) r), w'').
Proof.
  intros Hnm.
  induction fuel as [|fuel IH]; intros acc page w r w' Hle H; [discriminate|].
  destruct (Z.ltb_spec (Z.of_nat (List.length acc)) n) as [Hlt|Hge].
  - destruct (listing_cases net baseUrl page w) as [(d & E & Hne)|Hdown].
    + assert (Z.of_nat (List.length acc) < m)%Z as Hltm0 by lia.
      destruct (while_pages_next net baseUrl m fuel acc page w d Hltm0 E Hne)
        as (w1 & E1 & Hw1).
      destruct (while_pages_next net baseUrl n fuel acc page w d Hlt E Hne)
        as (w2 & E2 & Hw2).
      rewrite E1 in H. rewrite E2. clear E1 E2.
      set (visited := page_invites net baseUrl (groupCards d) _) in *.
      destruct (Z.ltb_spec (Z.of_nat (List.length (acc ++ fst visited))) n)
        as [Hlt'|Hge'].
      * assert (Z.of_nat (List.length (acc ++ fst visited)) < m)%Z as Hltm by lia.
        rewrite (Hw2 Hlt'). rewrite (Hw1 Hltm) in H.
        rewrite firstn_all2 in H by lia. rewrite firstn_all2 by lia.
        eapply IH; [|exact H]. lia.
      * destruct fuel as [|fuel]; [discriminate|].
        exists w2. rewrite while_pages_done by (rewrite length_firstn; lia).
        apply while_pages_grows in H as [more ->].
        assert (firstn (Z.to_nat n) (firstn (Z.to_nat m) (acc ++ fst visited) ++ more)
                = firstn (Z.to_nat n) (acc ++ fst visited)) as ->; [|reflexivity].
        rewrite (firstn_app (Z.to_nat n)), firstn_firstn, length_firstn.
        replace (Z.to_nat n - Nat.min (Z.to_nat m) (List.length (acc ++ fst visited)))%nat
          with 0%nat by lia.
        rewrite firstn_0, app_nil_r. f_equal. lia.
    + assert (Z.of_nat (List.length acc) < m)%Z as Hltm by lia.
      rewrite (while_pages_end net baseUrl m _ _ _ _ Hltm Hdown) in H.
      injection H as <- <-.
      rewrite (while_pages_end net baseUrl n _ _ _ _ Hlt Hdown).
      eexists. now rewrite firstn_all2 by lia.
  - exists w. rewrite (while_pages_done net baseUrl n _ _ _ _ Hge).
    apply while_pages_grows in H as [more ->].
    assert (Z.to_nat n = List.length acc) as -> by lia.
    now rewrite firstn_full.
Qed.

(** On a productive site every iteration that goes on has added a link,
    so the loop is left within [numLinksToGet + 1] tests. *)
Lemma while_pages_productive numLinksToGet fuel :
  productive net baseUrl ->
  forall allGroupLinks pageCounter w,
    (Z.of_nat (List.length allGroupLinks) <= numLinksToGet)%Z ->
    (Z.to_nat numLinksToGet - List.length allGroupLinks < fuel)%nat ->
    exists r w',
      while_pages net fuel baseUrl numLinksToGet allGroupLinks pageCounter w
      = Some (Normal r, w').
Proof.
  intros Hprod.
  induction fuel as [|fuel IH]; intros acc page w Hle Hfuel; [lia|].
  destruct (Z.ltb_spec (Z.of_nat (List.length acc)) numLinksToGet) as [Hlt|Hge].
  - destruct (listing_cases net baseUrl page w) as [(d & E & Hne)|Hdown].
    + destruct (while_pages_next net baseUrl numLinksToGet fuel acc page w d Hlt E Hne)
        as (w1 & E1 & _).
      rewrite E1. pose proof (Hprod w page d E Hne) as Hl.
      set (visited := page_invites net baseUrl (groupCards d) _) in *.
      assert (List.length (fst visited) <> 0)%nat as Hl'
          by (destruct (fst visited); [congruence | discriminate]).
      apply IH; rewrite length_firstn, length_app; lia.
    + rewrite (while_pages_end net baseUrl numLinksToGet _ _ _ _ Hlt Hdown).
      now eexists _, _.
  - rewrite (while_pages_done net baseUrl numLinksToGet _ _ _ _ Hge).
    now eexists _, _.
Qed.

End TargetFacts.

(* ================================================================== *)
(** ** Further properties: trimmed names *)

Section TrimFacts.

Local Open Scope string_scope.

Lemma trimEnd_idem (s : string) : Js.trimEnd (Js.trimEnd s) = Js.trimEnd s.
Proof.
  induction s as [|c s IH]; [reflexivity|]. cbn [Js.trimEnd].
  destruct (Js.trimEnd s) as [|d t] eqn:E.
  - destruct (Js.is_white c) eqn:W; [reflexivity|]. cbn [Js.trimEnd]. now rewrite W.
  - cbn [Js.trimEnd]. cbn [Js.trimEnd] in IH. now rewrite IH.
Qed.

Lemma trimEnd_head c s :
  Js.is_white c = false -> exists t, Js.trimEnd (String c s) = String c t.
Proof.
  intros W. cbn [Js.trimEnd]. destruct (Js.trimEnd s) as [|d t].
  - rewrite W. now exists "".
  - now exists (String d t).
Qed.

Lemma trimStart_head (s : string) :
  Js.trimStart s = ""
  \/ exists c t, Js.trimStart s = String c t /\ Js.is_white c = false.
Proof.
  induction s as [|c s IH]; [now left|]. cbn [Js.trimStart].
  destruct (Js.is_white c) eqn:W; [exact IH|]. right. now exists c, s.
Qed.

(** A trimmed string has nothing left to trim. *)
Lemma trim_idem (s : string) : Js.trim (Js.trim s) = Js.trim s.
Proof.
  unfold Js.trim. destruct (trimStart_head s) as [-> | (c & t & -> & W)];
    [reflexivity|].
  destruct (trimEnd_head c t W) as [t' E]. rewrite E.
  cbn [Js.trimStart]. rewrite W, <- E. apply trimEnd_idem.
Qed.

End TrimFacts.

(* ================================================================== *)
(** ** Further properties of the two endpoints and of the collector *)

(** X1: the categories endpoint answers 200 with a list of categories on
    every site: the branch that answers 500 is never taken. It makes exactly
    one request, to the base URL of the query or to the default one, and the
    console gets a line only when the list is empty. *)
Theorem categories_endpoint_always_200 net req w :
  exists categories w',
    get_categories net req w
    = ({| status := 200; body := JCategories categories |}, w')
    /\ requests w' = requests w ++ [query_base_url req]
    /\ (console w' = console w
        \/ (categories = [] /\ exists line, console w' = console w ++ [line])).
Proof.
  unfold get_categories, getCategories, try_catch, bind, axios_get, console_error.
  destruct (net (requests w) (query_base_url req)) as [[d|e]|e]; simpl.
  - eexists _, _. split; [reflexivity|]. split; [reflexivity | now left].
  - eexists _, _. split; [reflexivity|]. split; [reflexivity|].
    right. split; [reflexivity | now eexists].
  - eexists _, _. split; [reflexivity|]. split; [reflexivity|].
    right. split; [reflexivity | now eexists].
Qed.

(** X2: whatever the site answers, the category lister completes
    normally, and every category it returns has a name that is not empty and
    has no white space left at either end, and a url that is not empty; it
    returns no more categories than the page has category anchors. *)
Theorem categories_are_well_formed net baseUrl w :
  exists categories w',
    getCategories net baseUrl w = (Normal categories, w')
    /\ Forall (fun c => name c <> ""%string /\ url c <> ""%string
                        /\ Js.trim (name c) = name c) categories
    /\ forall d, net (requests w) baseUrl = Fulfilled (Html d) ->
                 (List.length categories <= List.length (categoryAnchors d))%nat.
Proof.
  destruct (net (requests w) baseUrl) as [[d|e]|e] eqn:E.
  - rewrite (getCategories_fulfilled net baseUrl w d E).
    eexists _, _. split; [reflexivity|]. split.
    + apply Forall_forall. intros c Hc. apply in_map_iff in Hc as (el & <- & Hel).
      apply filter_In in Hel as [_ Hl]. unfold listed in Hl.
      apply andb_true_iff in Hl as [Hn Hu]. unfold pair_of; cbn [name url].
      destruct (anchor_href el) as [u|]; [|discriminate].
      apply negb_true_iff in Hn, Hu.
      repeat split; [now apply String.eqb_neq | now apply String.eqb_neq |].
      apply trim_idem.
    + intros d' [= <-]. rewrite length_map. apply filter_length_le.
  - exists [], (snd (getCategories net baseUrl w)).
    unfold getCategories, try_catch, bind, axios_get, console_error. rewrite E.
    simpl. split; [reflexivity|]. split; [constructor | discriminate].
  - exists [], (snd (getCategories net baseUrl w)).
    unfold getCategories, try_catch, bind, axios_get, console_error. rewrite E.
    simpl. split; [reflexivity|]. split; [constructor | discriminate].
Qed.



(** X4: the links endpoint answers 400 exactly when [num_links] parses to
    a negative integer: such a request is always answered 400, and no other
    request is; in particular no value of [base_url] leads to 400. *)
Theorem bad_request_only_for_negative net fuel req w :
  (forall v, Js.parseInt (Js.toString (num_links req)) = Some v -> (v < 0)%Z ->
             get_whatsapp_links net fuel req w
             = Some ({| status := 400; body := JError invalid_parameters |}, w))
  /\ (forall resp w',
         get_whatsapp_links net fuel req w = Some (resp, w') ->
         status resp = 400%Z ->
         exists v, Js.parseInt (Js.toString (num_links req)) = Some v /\ (v < 0)%Z).
Proof.
  split.
  - intros v E Hv. now apply (negative_num_links_rejected net fuel req w v).
  - intros resp w' H Hs. unfold get_whatsapp_links in H.
    rewrite query_base_url_truthy in H. cbn [negb orb] in H.
    destruct (Z.leb_spec (query_num_links req) 0) as [Hle|Hpos].
    + unfold query_num_links, Js.number_or in Hle.
      destruct (Js.parseInt (Js.toString (num_links req))) as [v|]; [|lia].
      exists v. split; [reflexivity|]. destruct (Z.eqb_spec v 0); lia.
    + apply respond_links_status in H. lia.
Qed.



(** X6: two different page counters never give the same listing URL. *)
Theorem listing_urls_distinct baseUrl p q :
  p <> q -> currentUrl baseUrl p <> currentUrl baseUrl q.
Proof.
  intros Hpq H. apply Hpq. unfold currentUrl in H.
  destruct (Js.includes baseUrl "/page/");
    apply string_app_inv_head in H; apply string_app_inv_head in H;
    now apply of_nat_inj.
Qed.

Lemma listing_urls_distinct_witness :
  currentUrl "https://site.test/page/news" 9 <> currentUrl "https://site.test/page/news" 10.
Proof.
  apply (listing_urls_distinct "https://site.test/page/news" 9 10). lia.
Defined.

(** X7: asking for fewer links returns the beginning of what asking for
    more returns: when the collector returns for a target, it returns for
    every smaller target, with the same fuel, the first links of that
    result. *)
Theorem smaller_target_gives_prefix net baseUrl n m fuel w links w' :
  (n <= m)%Z ->
  getWhatsappGroupLinks net fuel baseUrl m w = Some (Normal links, w') ->
  exists w'',
    getWhatsappGroupLinks net fuel baseUrl n w
    = Some (Normal (firstn (Z.to_nat n) links), w'').
Proof.
  intros Hnm H. rewrite getWhatsappGroupLinks_while in *.
  destruct (Z.leb_spec 0 n) as [Hn|Hn].
  - apply (while_pages_prefix net baseUrl n m fuel Hnm [] 1 w links w'); [simpl; lia|].
    exact H.
  - destruct fuel as [|fuel]; [discriminate|].
    exists w. rewrite while_pages_done by (simpl; lia).
    now replace (Z.to_nat n) with 0%nat by lia.
Qed.

Lemma smaller_target_gives_prefix_witness :
  exists w'',
    getWhatsappGroupLinks Sites.small 2 "https://site.test/" 1 start
    = Some (Normal (firstn (Z.to_nat 1)
                      ["https://chat.whatsapp.com/A"; "https://chat.whatsapp.com/X"]),
            w'').
Proof.
  apply (smaller_target_gives_prefix Sites.small "https://site.test/" 1 5 2 start
           ["https://chat.whatsapp.com/A"; "https://chat.whatsapp.com/X"]
           {| requests :=
                ["https://site.test/?page=1"; "https://site.test/g/a";
                 "https://site.test/g/b"; "http://other.test/x";
                 "https://site.test/?page=2"];
              console := [] |});
    [lia | vm_compute; reflexivity].
Defined.

(** X8: when pagination ends, the links endpoint answers with the first
    [num_links] invite links of the site, in the order of the pages and of
    the cards on each page; it answers 404 when the site has none. *)
Theorem endpoint_returns_first_links net fuel req w all :
  (0 < query_num_links req)%Z ->
  site_invites net fuel (query_base_url req) 1 w = Some all ->
  exists w',
    get_whatsapp_links net fuel req w
    = Some (match all with
            | [] => {| status := 404; body := JError no_links_found |}
            | _ => {| status := 200;
                      body := JLinks (firstn (Z.to_nat (query_num_links req)) all) |}
            end, w').
Proof.
  intros Hpos E. rewrite get_whatsapp_links_valid by exact Hpos.
  rewrite getWhatsappGroupLinks_while.
  destruct (while_pages_complete net (query_base_url req) (query_num_links req)
              fuel [] 1 w all) as (w' & E'); [simpl; lia | exact E |].
  rewrite E'. exists w'. cbn [app respond_links].
  destruct all as [|l all]; [now rewrite firstn_nil|].
  destruct (Z.to_nat (query_num_links req)) as [|k] eqn:Ek; [lia|]. reflexivity.
Qed.

Lemma endpoint_returns_first_links_witness :
  exists w',
    get_whatsapp_links Sites.small 2
      {| base_url := Some "https://site.test/"; num_links := Some "1" |} start
    = Some ({| status := 200; body := JLinks ["https://chat.whatsapp.com/A"] |}, w').
Proof.
  apply (endpoint_returns_first_links Sites.small 2
           {| base_url := Some "https://site.test/"; num_links := Some "1" |} start
           ["https://chat.whatsapp.com/A"; "https://chat.whatsapp.com/X"]);
    [vm_compute; reflexivity | vm_compute; reflexivity].
Defined.

(** X9: on a site where every listing page that has cards yields at least
    one valid invite link, the collector returns after at most
    [numLinksToGet + 1] tests of the loop condition. *)
Theorem productive_site_terminates net baseUrl numLinksToGet w :
  productive net baseUrl ->
  exists links w',
    getWhatsappGroupLinks net (S (Z.to_nat numLinksToGet)) baseUrl numLinksToGet w
    = Some (Normal links, w').
Proof.
  intros Hprod. rewrite getWhatsappGroupLinks_while.
  destruct (Z.leb_spec 0 numLinksToGet) as [Hn|Hn].
  - apply while_pages_productive; [exact Hprod | simpl; lia | simpl; lia].
  - rewrite while_pages_done by (simpl; lia). now eexists _, _.
Qed.

Lemma productive_site_terminates_witness :
  exists links w',
    getWhatsappGroupLinks Sites.generous (S (Z.to_nat 3)) "https://site.test" 3 start
    = Some (Normal links, w').
Proof.
  apply (productive_site_terminates Sites.generous "https://site.test" 3 start).
  intros w page d E Hne. injection E as <-. simpl. discriminate.
Defined.

(** X10: when the first listing page cannot be fetched, or is not markup,
    the links endpoint answers 404 after that one request: a site that is
    down is answered like a site without links. *)
Theorem unreachable_site_is_404 net fuel req w e :
  (0 < query_num_links req)%Z ->
  net (requests w) (currentUrl (query_base_url req) 1) = Rejected e
  \/ net (requests w) (currentUrl (query_base_url req) 1) = Fulfilled (NotHtml e) ->
  get_whatsapp_links net (S fuel) req w
  = Some ({| status := 404; body := JError no_links_found |},
          sent (currentUrl (query_base_url req) 1) w).
Proof.
  intros Hpos E. rewrite get_whatsapp_links_valid by exact Hpos.
  rewrite getWhatsappGroupLinks_while, while_pages_end; [reflexivity | simpl; lia |].
  intros d Hd. destruct E as [E|E]; congruence.
Qed.

Lemma unreachable_site_is_404_witness :
  get_whatsapp_links Sites.down 1 {| base_url := None; num_links := Some "3" |} start
  = Some ({| status := 404; body := JError no_links_found |},
          sent "https://gruposwhats.app?page=1" start).
Proof.
  apply (unreachable_site_is_404 Sites.down 0
           {| base_url := None; num_links := Some "3" |} start
           {| message := "Request failed with status code 404" |});
    [vm_compute; reflexivity | left; reflexivity].
Defined.



(** X12: when the base URL starts with [http], every URL the collector
    requests starts with [http] too, whatever hrefs the cards carry. *)
Theorem only_http_is_requested net fuel baseUrl numLinksToGet w c w' :
  Js.startsWith baseUrl "http" = true ->
  getWhatsappGroupLinks net fuel baseUrl numLinksToGet w = Some (c, w') ->
  exists more,
    requests w' = requests w ++ more
    /\ Forall (fun u => Js.startsWith u "http" = true) more.
Proof.
  intros Hb H. rewrite getWhatsappGroupLinks_while in H.
  apply (while_pages_requested net baseUrl numLinksToGet
           (fun u => Js.startsWith u "http" = true)) in H.
  - destruct H as (more & E & HF & _). now exists more.
  - intros page. unfold currentUrl.
    destruct (Js.includes baseUrl "/page/"); now apply startsWith_app.
  - intros href. unfold detailPageUrl.
    destruct (Js.startsWith href "http") eqn:Eh; cbn [negb]; [exact Eh|].
    now apply startsWith_app, replace_trailing_slash_http.
Qed.

Lemma only_http_is_requested_witness :
  exists more,
    requests {| requests :=
                  ["https://site.test/?page=1"; "https://site.test/g/a";
                   "https://site.test/g/b"; "http://other.test/x";
                   "https://site.test/?page=2"];
                console := [] |}
    = requests start ++ more
    /\ Forall (fun u => Js.startsWith u "http" = true) more.
Proof.
  apply (only_http_is_requested Sites.small 2 "https://site.test/" 5 start
           (Normal ["https://chat.whatsapp.com/A"; "https://chat.whatsapp.com/X"]));
    [reflexivity | vm_compute; reflexivity].
Defined.


(** X14: the array of links never holds more than the target, so the
    truncation of line 88 never drops a link: what the function returns is
    the array as the loop left it. *)
Theorem truncation_never_drops net fuel baseUrl numLinksToGet w allGroupLinks w' :
  while_pages net fuel baseUrl numLinksToGet [] 1 w = Some (Normal allGroupLinks, w') ->
  Js.slice0 allGroupLinks numLinksToGet = allGroupLinks
  /\ getWhatsappGroupLinks net fuel baseUrl numLinksToGet w
     = Some (Normal allGroupLinks, w').
Proof.
  intros H. split.
  - destruct (while_pages_inv net baseUrl numLinksToGet fuel [] 1 w
                (Normal allGroupLinks) w') as (r & [= <-] & Hlen & _);
      [simpl; lia | constructor | exact H |].
    now apply slice0_keeps.
  - now rewrite getWhatsappGroupLinks_while.
Qed.

Lemma truncation_never_drops_witness :
  Js.slice0 ["https://chat.whatsapp.com/A"] 1 = ["https://chat.whatsapp.com/A"]
  /\ getWhatsappGroupLinks Sites.small 2 "https://site.test/" 1 start
     = Some (Normal ["https://chat.whatsapp.com/A"],
             {| requests := ["https://site.test/?page=1"; "https://site.test/g/a"];
                console := [] |}).
Proof.
  apply (truncation_never_drops Sites.small 2 "https://site.test/" 1 start).
  vm_compute. reflexivity.
Defined.
